(** * Movie Explorer: the catalog client, its formatting helpers and the
      search debounce of the list view

    A shallow embedding of [src/services/api.js] and of the search effect of
    [src/pages/Home.jsx], with the properties the specification states about
    them.

    Conventions of the embedding.
    - A JavaScript string is a [string] of the Standard Library: every
      [ascii] is one UTF-16 code unit in the range 0..255 (Latin-1).  On
      that range [trim], [toLowerCase], [includes], [parseInt] and
      [encodeURIComponent] are written out exactly as ECMAScript defines
      them; code units above 255 are outside the model.
    - A JavaScript number is [NaN], an infinity or a finite value carried as
      an exact rational; every finite double is such a rational.
    - An [async] function is a computation in the monad [Eff]: it logs the
      console and network events it performs and ends normally or by a
      throw; [async] turns that completion into a settled promise.
    - The remote service is an oracle [Network] from requests to outcomes. *)

From Stdlib Require Import Bool List Ascii String NArith ZArith QArith Qround
  Qabs DecimalString DecimalPos DecimalN Lia Lqa.
Import ListNotations.

#[local] Set Warnings "-register-all".
Local Open Scope string_scope.

(** ** The JavaScript runtime the sources rely on *)

Module Js.

(** *** Strings *)

Definition code (c : ascii) : N := N_of_ascii c.

(** WhiteSpace and LineTerminator code units below 256: TAB, LF, VT, FF,
    CR, SP and NBSP. *)
Definition isWhiteSpace (c : ascii) : bool :=
  let n := code c in
  ((9 <=? n) && (n <=? 13) || (n =? 32) || (n =? 160))%N.

Fixpoint trimStart (s : string) : string :=
  match s with
  | EmptyString => EmptyString
  | String c r => if isWhiteSpace c then trimStart r else s
  end.

Fixpoint trimEnd (s : string) : string :=
  match s with
  | EmptyString => EmptyString
  | String c r =>
      match trimEnd r with
      | EmptyString => if isWhiteSpace c then EmptyString
                       else String c EmptyString
      | r' => String c r'
      end
  end.

(** [String.prototype.trim]. *)
Definition trim (s : string) : string := trimEnd (trimStart s).

(** Upper-case letters below 256: A-Z, and U+00C0..U+00DE without the
    multiplication sign U+00D7. *)
Definition isUpper (n : N) : bool :=
  ((65 <=? n) && (n <=? 90) || (192 <=? n) && (n <=? 222) && negb (n =? 215))%N.

Definition lowerCode (n : N) : N := if isUpper n then (n + 32)%N else n.

Definition toLowerChar (c : ascii) : ascii := ascii_of_N (lowerCode (code c)).

(** [String.prototype.toLowerCase]. *)
Fixpoint toLowerCase (s : string) : string :=
  match s with
  | EmptyString => EmptyString
  | String c r => String (toLowerChar c) (toLowerCase r)
  end.

(** [hay.includes(needle)]. *)
Fixpoint includes (hay needle : string) : bool :=
  if prefix needle hay then true
  else match hay with
       | EmptyString => false
       | String _ r => includes r needle
       end.

(** ToBoolean of a string. *)
Definition truthy (s : string) : bool :=
  match s with EmptyString => false | _ => true end.

(** The exact decimal digits of a non-negative integer: what
    Number::toString gives for an integer below 2^53, every one of which
    is a Number. *)
Definition decimal (n : N) : string := NilZero.string_of_uint (N.to_uint n).

Definition hexDigit (n : N) : ascii :=
  ascii_of_N (if (n <? 10)%N then 48 + n else 55 + n).

Definition percent (byte : N) : string :=
  String "%" (String (hexDigit (byte / 16)) (String (hexDigit (byte mod 16)) EmptyString)).

(** Code units [encodeURIComponent] leaves alone: letters, digits and
    [- _ . ! ~ * ' ( )]. *)
Definition isUnreserved (n : N) : bool :=
  ((65 <=? n) && (n <=? 90) || (97 <=? n) && (n <=? 122) || (48 <=? n) && (n <=? 57)
   || (n =? 45) || (n =? 95) || (n =? 46) || (n =? 33) || (n =? 126)
   || (n =? 42) || (n =? 39) || (n =? 40) || (n =? 41))%N.

(** [encodeURIComponent]: the UTF-8 bytes of every other code unit,
    percent-escaped. *)
Fixpoint encodeURIComponent (s : string) : string :=
  match s with
  | EmptyString => EmptyString
  | String c r =>
      let n := code c in
      (if isUnreserved n then String c EmptyString
       else if (n <? 128)%N then percent n
       else percent (192 + n / 64) ++ percent (128 + n mod 64))
      ++ encodeURIComponent r
  end.

Definition isDigit (c : ascii) : bool :=
  let n := code c in ((48 <=? n) && (n <=? 57))%N.

Definition hexValue (c : ascii) : option N :=
  let n := code c in
  if ((48 <=? n) && (n <=? 57))%N then Some (n - 48)%N
  else if ((65 <=? n) && (n <=? 70))%N then Some (n - 55)%N
  else if ((97 <=? n) && (n <=? 102))%N then Some (n - 87)%N
  else None.

Definition digitValue (radix : N) (c : ascii) : option N :=
  match hexValue c with
  | Some d => if (d <? radix)%N then Some d else None
  | None => None
  end.

(** The longest prefix of radix digits, read left to right; [None] when
    there is no digit at all. *)
Fixpoint readDigits (radix : N) (s : string) (acc : option N) : option N :=
  match s with
  | EmptyString => acc
  | String c r =>
      match digitValue radix c with
      | Some d =>
          readDigits radix r
            (Some (match acc with Some a => a * radix + d | None => d end)%N)
      | None => acc
      end
  end.

(** [parseInt(s)] with no radix argument: leading white space is dropped,
    a sign is read, a [0x] or [0X] prefix selects radix 16, and the
    longest digit prefix is the value; [None] is NaN.  The result is
    kept as the exact integer: the Number it denotes equals a small
    integer only when the integer itself does. *)
Definition parseInt (s : string) : option Z :=
  let s1 := trimStart s in
  let '(negative, s2) :=
    match s1 with
    | String "-" r => (true, r)
    | String "+" r => (false, r)
    | _ => (false, s1)
    end in
  let '(radix, s3) :=
    match s2 with
    | String "0" (String "x" r) => (16%N, r)
    | String "0" (String "X" r) => (16%N, r)
    | _ => (10%N, s2)
    end in
  match readDigits radix s3 None with
  | None => None
  | Some n => Some (if negative then - Z.of_N n else Z.of_N n)%Z
  end.

(** *** Numbers and values *)

Inductive Number : Type :=
| NaN
| Infinity (negative : bool)
| Fin (q : Q).

(** A value as JSON or a literal can produce it. *)
Inductive JsVal : Type :=
| VUndefined
| VNull
| VBool (b : bool)
| VNum (n : Number)
| VStr (s : string)
| VArr (items : list JsVal)
| VObj (props : list (string * JsVal)).

Inductive JsError : Type :=
| TypeError
| SyntaxError
| Error (message : string).

(** *** Completions and effects *)

Inductive Completion (A : Type) : Type :=
| Normal (a : A)
| Throw (e : JsError).
Arguments Normal {A} a.
Arguments Throw {A} e.

Inductive Event : Type :=
| Fetch (url authorization : string)
| ConsoleWarn (message : string)
| ConsoleError (message : string) (e : JsError).

(** A computation yields the events it performed, oldest first, and its
    completion. *)
Definition Eff (A : Type) : Type := (list Event * Completion A)%type.

Definition ret {A} (a : A) : Eff A := ([], Normal a).
Definition throw {A} (e : JsError) : Eff A := ([], Throw e).
Definition emit (ev : Event) : Eff unit := ([ev], Normal tt).
Definition lift {A} (c : Completion A) : Eff A := ([], c).

Definition bind {A B} (m : Eff A) (k : A -> Eff B) : Eff B :=
  match m with
  | (t, Normal a) => let '(t', c) := k a in ((t ++ t')%list, c)
  | (t, Throw e) => (t, Throw e)
  end.

(** [try { body } catch (error) { handler }]. *)
Definition tryCatch {A} (body : Eff A) (handler : JsError -> Eff A) : Eff A :=
  match body with
  | (t, Normal a) => (t, Normal a)
  | (t, Throw e) => let '(t', c) := handler e in ((t ++ t')%list, c)
  end.

Inductive Promise (A : Type) : Type :=
| Resolved (a : A)
| Rejected (e : JsError).
Arguments Resolved {A} a.
Arguments Rejected {A} e.

(** The promise an [async] function returns, with the events of its body. *)
Definition async {A} (body : Eff A) : list Event * Promise A :=
  match body with
  | (t, Normal a) => (t, Resolved a)
  | (t, Throw e) => (t, Rejected e)
  end.

(** *** The network *)

Inductive Body : Type :=
| Malformed
| Json (data : JsVal).

Inductive FetchOutcome : Type :=
| NetworkFailure
| Response (ok : bool) (body : Body).

Definition Network : Type := string -> FetchOutcome.

(** The remote failures: the transport fails, the status is not a
    success, or the body is not JSON. *)
Definition failed (o : FetchOutcome) : bool :=
  match o with
  | NetworkFailure => true
  | Response false _ => true
  | Response true Malformed => true
  | Response true (Json _) => false
  end.

(** [await fetch(url, {headers})]: rejects with a TypeError when the
    transport fails.  Of the headers the event keeps [Authorization];
    [Content-Type] is the same constant in every request. *)
Definition fetch (net : Network) (url authorization : string)
  : Eff (bool * Body) :=
  ([Fetch url authorization],
   match net url with
   | NetworkFailure => Throw TypeError
   | Response ok body => Normal (ok, body)
   end).

(** [await response.json()]: rejects with a SyntaxError on a body that
    is not JSON. *)
Definition json (body : Body) : Completion JsVal :=
  match body with
  | Malformed => Throw SyntaxError
  | Json data => Normal data
  end.

(** The value of a property of an object, whose list names every
    property once; [undefined] when there is none. *)
Fixpoint lookup (name : string) (props : list (string * JsVal)) : JsVal :=
  match props with
  | [] => VUndefined
  | (k, v) :: rest => if String.eqb k name then v else lookup name rest
  end.

(** [v.name] for a data property: a TypeError on [undefined] and [null],
    the property of an object, [undefined] elsewhere. *)
Definition getProp (v : JsVal) (name : string) : Completion JsVal :=
  match v with
  | VUndefined | VNull => Throw TypeError
  | VObj props => Normal (lookup name props)
  | _ => Normal VUndefined
  end.

(** [v.method()] for a method of [String.prototype]: only a string has it. *)
Definition stringMethod (f : string -> string) (v : JsVal) : Completion string :=
  match v with
  | VStr s => Normal (f s)
  | _ => Throw TypeError
  end.

(** [xs.filter(callback)] with a callback that may throw. *)
Fixpoint filterE {A} (callback : A -> Completion bool) (xs : list A)
  : Completion (list A) :=
  match xs with
  | [] => Normal []
  | x :: rest =>
      match callback x with
      | Throw e => Throw e
      | Normal keep =>
          match filterE callback rest with
          | Throw e => Throw e
          | Normal kept => Normal (if keep then x :: kept else kept)
          end
      end
  end.

End Js.

Declare Scope eff_scope.
Delimit Scope eff_scope with eff.
Notation "x <- m ;; k" := (Js.bind m (fun x => k))
  (at level 61, m at next level, right associativity) : eff_scope.
Notation "m ;;; k" := (Js.bind m (fun _ => k))
  (at level 61, right associativity) : eff_scope.

(** ** [src/services/api.js] *)

Module Api.
Import Js.
Local Open Scope eff_scope.

Definition BASE_URL : string := "https://api.themoviedb.org/3".
Definition IMAGE_BASE_URL : string := "https://image.tmdb.org/t/p".

Record Movie : Type := {
  id : Z;
  title : string;
  poster_path : string;
  backdrop_path : string;
  overview : string;
  vote_average : Number;
  release_date : string
}.

(** The doubles the literals [8.7], [8.5] and [8.4] denote. *)
Definition lit_8_7 : Number := Fin (2448832297382707 # 281474976710656).
Definition lit_8_5 : Number := Fin (17 # 2).
Definition lit_8_4 : Number := Fin (4728779608739021 # 562949953421312).

Definition DUMMY_MOVIES : list Movie := [
  {| id := 1;
     title := "The Shawshank Redemption";
     poster_path := "/q6y0Go1tsGEsmtFryDOJo3dEmqu.jpg";
     backdrop_path := "/kXfqcdQKsToO0OUXHcrrNCHDBzO.jpg";
     overview := "Framed in the 1940s for the double murder of his wife and her lover, upstanding banker Andy Dufresne begins a new life at the Shawshank prison.";
     vote_average := lit_8_7;
     release_date := "1994-09-23" |};
  {| id := 2;
     title := "The Godfather";
     poster_path := "/3bhkrj58Vtu7enYsRolD1fZdja1.jpg";
     backdrop_path := "/tmU7GeKVybMWFButWEGl2M4GeiP.jpg";
     overview := "Spanning the years 1945 to 1955, a chronicle of the fictional Italian-American Corleone crime family.";
     vote_average := lit_8_7;
     release_date := "1972-03-14" |};
  {| id := 3;
     title := "The Dark Knight";
     poster_path := "/qJ2tW6WMUDux911r6m7haRef0WH.jpg";
     backdrop_path := "/hkBaDkMWbLaf8B1lsWsKX7Ew3Xq.jpg";
     overview := "Batman raises the stakes in his war on crime with the help of Lt. Jim Gordon and District Attorney Harvey Dent.";
     vote_average := lit_8_5;
     release_date := "2008-07-16" |};
  {| id := 4;
     title := "Pulp Fiction";
     poster_path := "/d5iIlFn5s0ImszYzBPb8JPIfbXD.jpg";
     backdrop_path := "/4cDFJr4HnXN5AdPw4AKrmLlMWdO.jpg";
     overview := "A burger-loving hit man, his philosophical partner, and a drug-addled gangster's moll.";
     vote_average := lit_8_5;
     release_date := "1994-09-10" |};
  {| id := 5;
     title := "Forrest Gump";
     poster_path := "/arw2vcBveWOVZr6pxd9XTd1TdQa.jpg";
     backdrop_path := "/7c9UVPPiTPltouxRVY6N9uUaHNd.jpg";
     overview := "A man with a low IQ has accomplished great things in his life and been present during significant historic events.";
     vote_average := lit_8_4;
     release_date := "1994-06-23" |};
  {| id := 6;
     title := "Inception";
     poster_path := "/9gk7adHYeDvHkCSEqAvQNLV5Uge.jpg";
     backdrop_path := "/s3TBrRGB1iav7gFOCNx3H31MoES.jpg";
     overview := "Cobb, a skilled thief who commits corporate espionage by infiltrating the subconscious of his targets.";
     vote_average := lit_8_4;
     release_date := "2010-07-15" |}
].

(** A record of the dataset as the object it is. *)
Definition movieVal (m : Movie) : JsVal :=
  VObj [("id", VNum (Fin (inject_Z (id m))));
        ("title", VStr (title m));
        ("poster_path", VStr (poster_path m));
        ("backdrop_path", VStr (backdrop_path m));
        ("overview", VStr (overview m));
        ("vote_average", VNum (vote_average m));
        ("release_date", VStr (release_date m))].

Definition moviesVal (ms : list Movie) : JsVal := VArr (map movieVal ms).

(** [getImageUrl(path, size = 'w500')].  [path] is a string or absent
    ([None] stands for [undefined] and [null]); [size] is a string or
    omitted. *)
Definition getImageUrl (path size : option string) : string :=
  let size := match size with Some s => s | None => "w500" end in
  match path with
  | None => "https://via.placeholder.com/500x750?text=No+Image"
  | Some p =>
      if negb (truthy p) then "https://via.placeholder.com/500x750?text=No+Image"
      else IMAGE_BASE_URL ++ "/" ++ size ++ p
  end.

Section Client.

(** [import.meta.env.REACT_APP_TMDB_API_KEY]: the string the build
    environment defines, [undefined] ([None]) when it defines none. *)
Variable API_KEY : option string.

Variable net : Network.

(** [API_KEY === 'YOUR_TMDB_API_KEY']. *)
Definition keyIsPlaceholder : bool :=
  match API_KEY with
  | Some k => String.eqb k "YOUR_TMDB_API_KEY"
  | None => false
  end.

(** [API_KEY] inside a template literal. *)
Definition keyText : string :=
  match API_KEY with Some k => k | None => "undefined" end.

(** The [page = 1] default, for a page below 2^53. *)
Definition pageText (page : option N) : string :=
  decimal (match page with Some p => p | None => 1%N end).

(** The [Authorization] header of every request. *)
Definition authorization : string := "Bearer " ++ keyText.

Definition popularUrl (page : option N) : string :=
  BASE_URL ++ "/movie/popular?api_key=" ++ keyText
  ++ "&language=en-US&page=" ++ pageText page.

(** [encodeURIComponent(query)], evaluated only after [query.trim()]
    has returned, that is on a string. *)
Definition queryText (query : JsVal) : string :=
  match query with VStr q => encodeURIComponent q | _ => "" end.

Definition searchUrl (query : JsVal) (page : option N) : string :=
  BASE_URL ++ "/search/movie?api_key=" ++ keyText
  ++ "&language=en-US&query=" ++ queryText query
  ++ "&page=" ++ pageText page.

Definition detailsUrl (movieId : string) : string :=
  BASE_URL ++ "/movie/" ++ movieId ++ "?api_key=" ++ keyText
  ++ "&language=en-US".

Definition dummyWarning : Event :=
  ConsoleWarn "Using dummy data - Please set your TMDB API key in services/api.js".

Definition fetchPopularMovies (page : option N) : list Event * Promise JsVal :=
  async
    (tryCatch
       (if keyIsPlaceholder then
          emit dummyWarning ;;;
          ret (moviesVal DUMMY_MOVIES)
        else
          response <- fetch net (popularUrl page) authorization ;;
          if negb (fst response) then
            throw (Error "Failed to fetch popular movies")
          else
            data <- lift (json (snd response)) ;;
            lift (getProp data "results"))
       (fun error =>
          emit (ConsoleError "Error fetching popular movies:" error) ;;;
          ret (moviesVal DUMMY_MOVIES))).

(** [DUMMY_MOVIES.filter(movie =>
      movie.title.toLowerCase().includes(query.toLowerCase()))]. *)
Definition filterDummy (query : JsVal) : Completion (list Movie) :=
  filterE
    (fun movie =>
       match stringMethod toLowerCase query with
       | Normal q => Normal (includes (toLowerCase (title movie)) q)
       | Throw e => Throw e
       end)
    DUMMY_MOVIES.

(** What that filter keeps when [query] is the string [q]. *)
Definition matching (q : string) : list Movie :=
  filter (fun movie => includes (toLowerCase (title movie)) (toLowerCase q))
    DUMMY_MOVIES.

Definition searchMovies (query : JsVal) (page : option N)
  : list Event * Promise JsVal :=
  async
    (tryCatch
       (trimmed <- lift (stringMethod trim query) ;;
        if negb (truthy trimmed) then
          ret (VArr [])
        else if keyIsPlaceholder then
          emit dummyWarning ;;;
          found <- lift (filterDummy query) ;;
          ret (moviesVal found)
        else
          response <- fetch net (searchUrl query page) authorization ;;
          if negb (fst response) then
            throw (Error "Failed to search movies")
          else
            data <- lift (json (snd response)) ;;
            lift (getProp data "results"))
       (fun error =>
          emit (ConsoleError "Error searching movies:" error) ;;;
          found <- lift (filterDummy query) ;;
          ret (moviesVal found))).

(** [m.id === parseInt(movieId)]: never true of NaN. *)
Definition idIs (movieId : string) (m : Movie) : bool :=
  match parseInt movieId with
  | Some k => Z.eqb (id m) k
  | None => false
  end.

(** [DUMMY_MOVIES.find(m => m.id === parseInt(movieId)) || DUMMY_MOVIES[0]]:
    every record is an object, hence truthy. *)
Definition dummyDetails (movieId : string) : JsVal :=
  match find (idIs movieId) DUMMY_MOVIES with
  | Some movie => movieVal movie
  | None =>
      match nth_error DUMMY_MOVIES 0 with
      | Some first => movieVal first
      | None => VUndefined
      end
  end.

(** [fetchMovieDetails(movieId)], on the string the route gives. *)
Definition fetchMovieDetails (movieId : string) : list Event * Promise JsVal :=
  async
    (tryCatch
       (if keyIsPlaceholder then
          emit dummyWarning ;;;
          ret (dummyDetails movieId)
        else
          response <- fetch net (detailsUrl movieId) authorization ;;
          if negb (fst response) then
            throw (Error "Failed to fetch movie details")
          else
            lift (json (snd response)))
       (fun error =>
          emit (ConsoleError "Error fetching movie details:" error) ;;;
          ret (dummyDetails movieId))).

End Client.

Section Formatting.

(** Number::toString on a finite value of magnitude 10^21 or more (an
    exponential notation); the one part of [toFixed] left abstract. *)
Variable exponential : Q -> string.

(** ToBoolean. *)
Definition toBoolean (v : JsVal) : bool :=
  match v with
  | VUndefined | VNull => false
  | VBool b => b
  | VNum NaN => false
  | VNum (Infinity _) => true
  | VNum (Fin q) => negb (Qnum q =? 0)%Z
  | VStr s => truthy s
  | VArr _ | VObj _ => true
  end.

(** The integer [n] for which [n / 10 - x] is as close to zero as
    possible, the larger one of two. *)
Definition nearestTenths (x : Q) : N := Z.to_N (Qfloor (10 * x + (1 # 2))).

(** [Number.prototype.toFixed(1)]. *)
Definition toFixed1 (x : Number) : string :=
  match x with
  | NaN => "NaN"
  | Infinity false => "Infinity"
  | Infinity true => "-Infinity"
  | Fin q =>
      let s := if (Qnum q <? 0)%Z then "-" else "" in
      let x := Qabs q in
      if Qle_bool (10 ^ 21) x then s ++ exponential x
      else
        let n := nearestTenths x in
        s ++ decimal (n / 10) ++ "." ++ decimal (n mod 10)
  end.

(** [formatRating(rating)]: [toFixed] is a method of numbers only. *)
Definition formatRating (rating : JsVal) : Completion string :=
  if negb (toBoolean rating) then Normal "N/A"
  else match rating with
       | VNum x => Normal (toFixed1 x)
       | _ => Throw TypeError
       end.

End Formatting.

End Api.

(** ** [src/pages/Home.jsx]: the state of the list view and its search effect *)

Module Home.
Import Js.

(** A request the view issues to the catalog client, with the time of
    the call. *)
Inductive Call : Type :=
| SearchMovies (time : Z) (query : string)
| FetchPopularMovies (time : Z).

(** A pending [setTimeout(() => handleSearch(), 500)]: [captured] is the
    [searchQuery] of the render whose [handleSearch] the callback closes
    over. *)
Record Timer : Type := {
  timerId : nat;
  deadline : Z;
  captured : string
}.

Record State : Type := {
  movies : JsVal;
  searchQuery : string;
  loading : bool;
  error : option string;
  isSearching : bool;
  (** the timeouts that are pending, oldest first *)
  timers : list Timer;
  nextTimerId : nat;
  (** the cleanup the last run of the search effect returned:
      [() => clearTimeout(timeoutId)], or none *)
  cleanup : option nat;
  (** the requests issued so far, oldest first *)
  calls : list Call
}.

Definition setMovies (data : JsVal) (s : State) : State :=
  {| movies := data; searchQuery := searchQuery s; loading := loading s;
     error := error s; isSearching := isSearching s; timers := timers s;
     nextTimerId := nextTimerId s; cleanup := cleanup s; calls := calls s |}.

Definition setSearchQuery (value : string) (s : State) : State :=
  {| movies := movies s; searchQuery := value; loading := loading s;
     error := error s; isSearching := isSearching s; timers := timers s;
     nextTimerId := nextTimerId s; cleanup := cleanup s; calls := calls s |}.

Definition setLoading (b : bool) (s : State) : State :=
  {| movies := movies s; searchQuery := searchQuery s; loading := b;
     error := error s; isSearching := isSearching s; timers := timers s;
     nextTimerId := nextTimerId s; cleanup := cleanup s; calls := calls s |}.

Definition setError (e : option string) (s : State) : State :=
  {| movies := movies s; searchQuery := searchQuery s; loading := loading s;
     error := e; isSearching := isSearching s; timers := timers s;
     nextTimerId := nextTimerId s; cleanup := cleanup s; calls := calls s |}.

Definition setIsSearching (b : bool) (s : State) : State :=
  {| movies := movies s; searchQuery := searchQuery s; loading := loading s;
     error := error s; isSearching := b; timers := timers s;
     nextTimerId := nextTimerId s; cleanup := cleanup s; calls := calls s |}.

Definition issue (c : Call) (s : State) : State :=
  {| movies := movies s; searchQuery := searchQuery s; loading := loading s;
     error := error s; isSearching := isSearching s; timers := timers s;
     nextTimerId := nextTimerId s; cleanup := cleanup s;
     calls := calls s ++ [c] |}.

(** [setTimeout(callback, delay)] at time [now]; the identifier of the
    new timer becomes the effect's cleanup. *)
Definition setTimeout (now delay : Z) (query : string) (s : State) : State :=
  {| movies := movies s; searchQuery := searchQuery s; loading := loading s;
     error := error s; isSearching := isSearching s;
     timers := timers s ++ [{| timerId := nextTimerId s;
                               deadline := now + delay;
                               captured := query |}];
     nextTimerId := S (nextTimerId s);
     cleanup := Some (nextTimerId s);
     calls := calls s |}.

Definition clearTimeout (i : nat) (s : State) : State :=
  {| movies := movies s; searchQuery := searchQuery s; loading := loading s;
     error := error s; isSearching := isSearching s;
     timers := filter (fun tm => negb (Nat.eqb (timerId tm) i)) (timers s);
     nextTimerId := nextTimerId s; cleanup := cleanup s; calls := calls s |}.

Definition noCleanup (s : State) : State :=
  {| movies := movies s; searchQuery := searchQuery s; loading := loading s;
     error := error s; isSearching := isSearching s; timers := timers s;
     nextTimerId := nextTimerId s; cleanup := None; calls := calls s |}.

(** [loadPopularMovies], up to its [await]. *)
Definition loadPopularMovies (now : Z) (s : State) : State :=
  issue (FetchPopularMovies now) (setError None (setLoading true s)).

(** [loadPopularMovies], from the settling of [fetchPopularMovies()]. *)
Definition popularSettled (r : Promise JsVal) (s : State) : State :=
  setLoading false
    match r with
    | Resolved data => setMovies data s
    | Rejected _ => setError (Some "Failed to load movies. Please try again later.") s
    end.

(** [handleSearch], up to its [await], in a render whose [searchQuery]
    is [query]. *)
Definition handleSearch (now : Z) (query : string) (s : State) : State :=
  issue (SearchMovies now query)
    (setIsSearching true (setError None (setLoading true s))).

(** [handleSearch], from the settling of [searchMovies(searchQuery)]. *)
Definition searchSettled (r : Promise JsVal) (s : State) : State :=
  setLoading false
    match r with
    | Resolved data => setMovies data s
    | Rejected _ => setError (Some "Failed to search movies. Please try again.") s
    end.

(** The body of the effect that depends on [searchQuery]. *)
Definition searchEffect (now : Z) (s : State) : State :=
  if truthy (trim (searchQuery s)) then
    setTimeout now 500 (searchQuery s) s
  else
    let s := noCleanup s in
    if isSearching s then loadPopularMovies now (setIsSearching false s)
    else s.

(** The cleanup of the previous run of the effect, if it returned one. *)
Definition runCleanup (s : State) : State :=
  match cleanup s with
  | Some i => clearTimeout i s
  | None => s
  end.

(** [handleSearchChange]: [setSearchQuery(e.target.value)].  An equal
    value leaves the dependency unchanged and the effect is not run
    again; otherwise the previous cleanup runs, then the effect. *)
Definition handleSearchChange (now : Z) (value : string) (s : State) : State :=
  if String.eqb value (searchQuery s) then s
  else searchEffect now (runCleanup (setSearchQuery value s)).

(** The first render and its two effects, in source order. *)
Definition mount (now : Z) : State :=
  searchEffect now
    (loadPopularMovies now
       {| movies := VArr []; searchQuery := ""; loading := true;
          error := None; isSearching := false; timers := [];
          nextTimerId := 0; cleanup := None; calls := [] |}).

Definition isDue (now : Z) (tm : Timer) : bool := (deadline tm <=? now)%Z.

(** The timeouts whose deadline has come run their callback, oldest
    first, each at its deadline. *)
Definition fireTimers (now : Z) (s : State) : State :=
  fold_left
    (fun s tm => handleSearch (deadline tm) (captured tm) (clearTimeout (timerId tm) s))
    (filter (isDue now) (timers s)) s.

Inductive Input : Type :=
| Change (value : string)
| Submit
| PopularSettled (r : Promise JsVal)
| SearchSettled (r : Promise JsVal)
| Wait.

Definition handle (now : Z) (i : Input) (s : State) : State :=
  match i with
  | Change value => handleSearchChange now value s
  | Submit => handleSearch now (searchQuery s) s
  | PopularSettled r => popularSettled r s
  | SearchSettled r => searchSettled r s
  | Wait => s
  end.

(** One event of the loop at time [now]: the due timeouts, then the
    input. *)
Definition step (s : State) (ev : Z * Input) : State :=
  handle (fst ev) (snd ev) (fireTimers (fst ev) s).

Definition run (evs : list (Z * Input)) (s : State) : State :=
  fold_left step evs s.

(** The states the view can be in. *)
Definition reachable (s : State) : Prop :=
  exists t0 evs, s = run evs (mount t0).

(** The text typed, one change per keystroke. *)
Definition keystrokes (ks : list (Z * string)) : list (Z * Input) :=
  map (fun k => (fst k, Change (snd k))) ks.

(** A burst of keystrokes after time [t] and text [v]: every keystroke
    changes the text to one whose trimmed form is not empty, and comes
    less than 500 ms after the one before. *)
Fixpoint burst (t : Z) (v : string) (ks : list (Z * string)) : Prop :=
  match ks with
  | [] => True
  | (t', v') :: rest =>
      (t <= t' < t + 500)%Z /\ v' <> v /\ trim v' <> "" /\ burst t' v' rest
  end.

(** The only timeout that can be pending is the one the cleanup of the
    search effect clears. *)
Definition timersOwned (s : State) : Prop :=
  timers s = [] \/
  exists tm, timers s = [tm] /\ cleanup s = Some (timerId tm).

(** The debounce is armed: the text is [v] and one timeout is pending,
    set at time [t] for a search of [v]. *)
Definition armed (t : Z) (v : string) (s : State) : Prop :=
  searchQuery s = v /\
  exists i,
    timers s = [{| timerId := i; deadline := t + 500; captured := v |}] /\
    cleanup s = Some i.

End Home.

(** ** The vocabulary of the specification *)

Module Spec.
Import Js Api.

(** An empty or whitespace-only text. *)
Fixpoint allWhiteSpace (s : string) : bool :=
  match s with
  | EmptyString => true
  | String c r => isWhiteSpace c && allWhiteSpace r
  end.

(** [d] is the lower-case form of the upper-case letter [c]. *)
Definition lowerOf (c d : ascii) : Prop :=
  isUpper (code c) = true /\ code d = (code c + 32)%N.

(** Two code units that are the same letter, whatever their case. *)
Definition sameLetter (c d : ascii) : Prop :=
  c = d \/ lowerOf c d \/ lowerOf d c.

(** Two texts that differ by the case of their letters only. *)
Inductive sameIgnoringCase : string -> string -> Prop :=
| sameEmpty : sameIgnoringCase "" ""
| sameString c d r r' :
    sameLetter c d -> sameIgnoringCase r r' ->
    sameIgnoringCase (String c r) (String d r').

(** [text] contains [q] as a case-insensitive substring. *)
Definition containsIgnoringCase (text q : string) : Prop :=
  exists before middle after,
    text = before ++ middle ++ after /\ sameIgnoringCase middle q.

(** [picked] keeps some elements of [all], in the order of [all]. *)
Inductive subsequence {A : Type} : list A -> list A -> Prop :=
| subNil : subsequence [] []
| subSkip x picked all : subsequence picked all -> subsequence picked (x :: all)
| subKeep x picked all : subsequence picked all -> subsequence (x :: picked) (x :: all).

(** Fallback mode of an operation whose request is [url]: the key is the
    placeholder, or the remote interaction fails. *)
Definition fallbackMode (API_KEY : option string) (net : Network) (url : string) : Prop :=
  keyIsPlaceholder API_KEY = true \/ failed (net url) = true.

Fixpoint allDigits (s : string) : bool :=
  match s with
  | EmptyString => true
  | String c r => isDigit c && allDigits r
  end.

(** A point and one digit, nothing more. *)
Definition pointDigit (s : string) : bool :=
  match s with
  | String p (String d EmptyString) => Ascii.eqb p "." && isDigit d
  | _ => false
  end.

(** One digit or more, a point, one digit. *)
Fixpoint unsignedOneDecimal (s : string) : bool :=
  match s with
  | EmptyString => false
  | String c r => isDigit c && (pointDigit r || unsignedOneDecimal r)
  end.

(** A decimal numeral with exactly one digit after the point, with an
    optional minus sign. *)
Definition oneDecimal (s : string) : bool :=
  match s with
  | EmptyString => false
  | String c r =>
      if Ascii.eqb c "-" then unsignedOneDecimal r else unsignedOneDecimal s
  end.

(** The rational a one-decimal rendering of [n] tenths denotes is within
    half a tenth of [x]. *)
Definition roundsToTenths (x : Q) (n : N) : Prop :=
  Qabs (x - inject_Z (Z.of_N n) / 10) <= 1 # 20.

Definition placeholderImage : string :=
  "https://via.placeholder.com/500x750?text=No+Image".

End Spec.

(** ** [src/pages/Home.jsx] and [src/components]: what the list view shows *)

Module ListView.
Import Js Api Home.

(** [v.length]: a TypeError on [undefined] and [null], the number of
    items of an array, of code units of a string, the property of an
    object, [undefined] elsewhere. *)
Definition lengthOf (v : JsVal) : Completion JsVal :=
  match v with
  | VUndefined | VNull => Throw TypeError
  | VArr items => Normal (VNum (Fin (inject_Z (Z.of_nat (List.length items)))))
  | VStr s => Normal (VNum (Fin (inject_Z (Z.of_nat (String.length s)))))
  | VObj props => Normal (lookup "length" props)
  | _ => Normal VUndefined
  end.

(** [v === k] for an integer literal [k]. *)
Definition isNumber (k : Z) (v : JsVal) : bool :=
  match v with
  | VNum (Fin q) => Qeq_bool q (inject_Z k)
  | _ => false
  end.

(** What [MovieList] returns: the empty state or the grid, one card per
    item. *)
Inductive Listing : Type :=
| LoadingSpinner
| NoMoviesFound
| Grid (cards : list JsVal).

(** [MovieList({ movies })]: [movies.map] is a function on arrays only. *)
Definition MovieList (movies : JsVal) : Completion Listing :=
  if negb (toBoolean movies) then Normal NoMoviesFound
  else
    match lengthOf movies with
    | Throw e => Throw e
    | Normal len =>
        if isNumber 0 len then Normal NoMoviesFound
        else match movies with
             | VArr items => Normal (Grid items)
             | _ => Throw TypeError
             end
    end.

(** The section title of [Home]: the count is the value of
    [movies.length], the noun follows [movies.length === 1]. *)
Inductive Heading : Type :=
| PopularMovies
| SearchResults (query : string) (count : JsVal) (noun : string).

(** The values [Home] hands to React: the title, the error banner when
    [error] is truthy, and the spinner or the list.  The cards and what
    React does with these values are not part of it. *)
Record View : Type := {
  heading : Heading;
  banner : option string;
  listing : Listing
}.

Definition sectionTitle (s : State) : Completion Heading :=
  if isSearching s then
    match lengthOf (movies s) with
    | Throw e => Throw e
    | Normal len =>
        Normal (SearchResults (searchQuery s) len
                  (if isNumber 1 len then "movie" else "movies"))
    end
  else Normal PopularMovies.

(** The return expression of [Home], evaluated in a state. *)
Definition render (s : State) : Completion View :=
  match sectionTitle s with
  | Throw e => Throw e
  | Normal h =>
      match (if loading s then Normal LoadingSpinner else MovieList (movies s)) with
      | Throw e => Throw e
      | Normal l =>
          Normal {| heading := h;
                    banner := match error s with
                              | Some e => if truthy e then Some e else None
                              | None => None
                              end;
                    listing := l |}
      end
  end.

Section Navigation.

(** Number::toString on a finite number that is not an integer of
    magnitude below 2^53 (shortest round-trip digits, an exponent for
    the largest and the smallest); the one part of the template literal
    left abstract. *)
Variable numberText : Q -> string.

(** A number inside a template literal: an integer of magnitude below
    2^53 prints as its exact decimal digits, with its sign. *)
Definition numberTemplate (x : Number) : string :=
  match x with
  | NaN => "NaN"
  | Infinity false => "Infinity"
  | Infinity true => "-Infinity"
  | Fin q =>
      let z := (Qnum q / Z.pos (Qden q))%Z in
      if ((Qnum q mod Z.pos (Qden q) =? 0) && (Z.abs z <? 2 ^ 53))%Z
      then (if (z <? 0)%Z then "-" else "") ++ decimal (Z.abs_N z)
      else numberText q
  end.

(** [handleMovieClick(movieId)], called by a card with the number
    [movie.id]: the target of [navigate]. *)
Definition handleMovieClick (movieId : Number) : string :=
  "/movie/" ++ numberTemplate movieId.

End Navigation.

(** The requests of [Home] against the catalog client:
    [fetchPopularMovies()] and [searchMovies(searchQuery)]. *)
Definition settle (API_KEY : option string) (net : Network) (c : Call)
  : Promise JsVal :=
  match c with
  | FetchPopularMovies _ => snd (fetchPopularMovies API_KEY net None)
  | SearchMovies _ query => snd (searchMovies API_KEY net (VStr query) None)
  end.

(** An input of the list view in a world with key [API_KEY] and network
    [net]: a settling carries what the client returns for a request of
    the view. *)
Inductive fromClient (API_KEY : option string) (net : Network) : Input -> Prop :=
| clientChange value : fromClient API_KEY net (Change value)
| clientSubmit : fromClient API_KEY net Submit
| clientWait : fromClient API_KEY net Wait
| clientPopular t :
    fromClient API_KEY net (PopularSettled (settle API_KEY net (FetchPopularMovies t)))
| clientSearch t query :
    fromClient API_KEY net (SearchSettled (settle API_KEY net (SearchMovies t query))).

End ListView.

(** ** [src/pages/MovieDetail.jsx]: the state of the detail view *)

Module Detail.
Import Js Api.

Record State : Type := {
  movie : JsVal;
  loading : bool;
  error : option string
}.

(** [useState(null)], [useState(true)], [useState(null)]. *)
Definition initial : State :=
  {| movie := VNull; loading := true; error := None |}.

(** [loadMovieDetails], up to its [await]. *)
Definition loadMovieDetails (s : State) : State :=
  {| movie := movie s; loading := true; error := None |}.

(** [loadMovieDetails], from the settling of [fetchMovieDetails(id)]. *)
Definition detailsSettled (r : Promise JsVal) (s : State) : State :=
  match r with
  | Resolved data => {| movie := data; loading := false; error := error s |}
  | Rejected _ =>
      {| movie := movie s; loading := false;
         error := Some "Failed to load movie details. Please try again." |}
  end.

(** Which of its three returns [MovieDetail] takes. *)
Inductive Panel : Type :=
| LoadingSpinner
| ErrorPanel (message : string)
| Details (movie : JsVal).

Definition errorText (s : State) : option string :=
  match error s with
  | Some e => if truthy e then Some e else None
  | None => None
  end.

(** [if (loading) ...; if (error || !movie) ... {error || 'Movie not
    found'} ...; return ...]. *)
Definition panel (s : State) : Panel :=
  if loading s then LoadingSpinner
  else match errorText s with
       | Some e => ErrorPanel e
       | None => if negb (toBoolean (movie s)) then ErrorPanel "Movie not found"
                 else Details (movie s)
       end.

(** Entering the view on the route id [id], up to the settling of its
    request. *)
Definition visit (API_KEY : option string) (net : Network) (id : string) : State :=
  detailsSettled (snd (fetchMovieDetails API_KEY net id)) (loadMovieDetails initial).

End Detail.

(** ** Observations on runs *)

Module Observe.
Import Js Api Home.

(** The number of requests in a trace. *)
Fixpoint fetches (t : list Event) : nat :=
  match t with
  | [] => 0
  | Fetch _ _ :: rest => S (fetches rest)
  | _ :: rest => fetches rest
  end.

Fixpoint searches (cs : list Call) : nat :=
  match cs with
  | [] => 0
  | SearchMovies _ _ :: rest => S (searches rest)
  | _ :: rest => searches rest
  end.

(** The inputs that can start a search: a change of the text or a
    submission. *)
Fixpoint triggers (evs : list (Z * Input)) : nat :=
  match evs with
  | [] => 0
  | (_, (Change _ | Submit)) :: rest => S (triggers rest)
  | _ :: rest => triggers rest
  end.

(** The characters of an encoded URI component: unreserved ones, the
    percent sign and upper-case hexadecimal digits. *)
Definition isEncoded (c : ascii) : bool :=
  let n := code c in
  (isUnreserved n || (n =? 37) || (48 <=? n) && (n <=? 57)
   || (65 <=? n) && (n <=? 70))%N.

Fixpoint allEncoded (s : string) : bool :=
  match s with
  | EmptyString => true
  | String c r => isEncoded c && allEncoded r
  end.

(** The value of a decimal numeral read left to right after [acc]. *)
Fixpoint numeral (u : Decimal.uint) (acc : N) : N :=
  match u with
  | Decimal.Nil => acc
  | Decimal.D0 u => numeral u (10 * acc)
  | Decimal.D1 u => numeral u (10 * acc + 1)
  | Decimal.D2 u => numeral u (10 * acc + 2)
  | Decimal.D3 u => numeral u (10 * acc + 3)
  | Decimal.D4 u => numeral u (10 * acc + 4)
  | Decimal.D5 u => numeral u (10 * acc + 5)
  | Decimal.D6 u => numeral u (10 * acc + 6)
  | Decimal.D7 u => numeral u (10 * acc + 7)
  | Decimal.D8 u => numeral u (10 * acc + 8)
  | Decimal.D9 u => numeral u (10 * acc + 9)
  end%N.

(** A keystroke sequence typed slowly: every keystroke changes the text
    to one whose trimmed form is not empty, and comes 500 ms or more
    after the one before. *)
Fixpoint spaced (t : Z) (v : string) (ks : list (Z * string)) : Prop :=
  match ks with
  | [] => True
  | (t', v') :: rest =>
      (t + 500 <= t')%Z /\ v' <> v /\ trim v' <> "" /\ spaced t' v' rest
  end.

(** The search each keystroke of a sequence leads to, 500 ms later. *)
Definition searchOf (k : Z * string) : Call :=
  SearchMovies (fst k + 500) (snd k).

(** The error a failed request ends in: the TypeError of [fetch], the
    Error the operation throws on a status that is not a success, the
    SyntaxError of [response.json()]. *)
Definition causeOf (message : string) (o : FetchOutcome) : JsError :=
  match o with
  | NetworkFailure => TypeError
  | Response false _ => Error message
  | Response true _ => SyntaxError
  end.

(** The first encoded character of a text and what follows it: the
    inverse of one step of [encodeURIComponent]. *)
Definition decodeFirst (s : string) : option (ascii * string) :=
  match s with
  | EmptyString => None
  | String c r =>
      if negb (code c =? 37)%N then Some (c, r)
      else
        match r with
        | String h1 (String h2 r1) =>
            match hexValue h1, hexValue h2 with
            | Some a, Some b =>
                let byte := (16 * a + b)%N in
                if (byte <? 128)%N then Some (ascii_of_N byte, r1)
                else
                  match r1 with
                  | String _ (String h3 (String h4 r2)) =>
                      match hexValue h3, hexValue h4 with
                      | Some a', Some b' =>
                          Some (ascii_of_N ((byte - 192) * 64 + (16 * a' + b' - 128)), r2)
                      | _, _ => None
                      end
                  | _ => None
                  end
            | _, _ => None
            end
        | _ => None
        end
  end.

(** What may follow a decimal numeral for [parseInt] to read exactly the
    numeral: nothing, or a character that is neither a decimal digit
    nor the [x] of a hexadecimal prefix. *)
Definition endsNumeral (rest : string) : Prop :=
  match rest with
  | EmptyString => True
  | String h _ => digitValue 10 h = None /\ h <> "x"%char /\ h <> "X"%char
  end.

End Observe.

(** ** Facts about the runtime *)

Import Js Api Spec.

Lemma trimStart_blank (s : string) :
  allWhiteSpace s = true -> trimStart s = "".
Proof.
  induction s as [|c r IH]; simpl; [reflexivity|].
  intros H. apply andb_true_iff in H as [Hc Hr].
  rewrite Hc. auto.
Qed.

Lemma trim_blank (s : string) : allWhiteSpace s = true -> trim s = "".
Proof.
  intros H. unfold trim. rewrite (trimStart_blank s H). reflexivity.
Qed.

Lemma trimEnd_empty (s : string) : trimEnd s = "" -> allWhiteSpace s = true.
Proof.
  induction s as [|c r IH]; simpl; [reflexivity|].
  destruct (trimEnd r) eqn:E; [|discriminate].
  destruct (isWhiteSpace c); [|discriminate].
  intros _. simpl. auto.
Qed.

Lemma trim_empty_blank (s : string) : trim s = "" -> allWhiteSpace s = true.
Proof.
  unfold trim.
  induction s as [|c r IH]; [reflexivity|].
  cbn [trimStart allWhiteSpace].
  destruct (isWhiteSpace c) eqn:E.
  - exact IH.
  - intros H. apply trimEnd_empty in H.
    cbn [allWhiteSpace] in H. rewrite E in H. discriminate.
Qed.

Lemma truthy_trim (s : string) : truthy (trim s) = negb (allWhiteSpace s).
Proof.
  destruct (allWhiteSpace s) eqn:E.
  - rewrite (trim_blank s E). reflexivity.
  - destruct (trim s) eqn:T; [|reflexivity].
    apply trim_empty_blank in T. congruence.
Qed.

(** ** The catalog client *)

(** The outcomes of a request: no response, a status that is not a
    success, a body that is not JSON, a JSON value. *)
Ltac outcome_cases o := destruct o as [|[|] [|[]]].

(** C3. For every query that is empty or whitespace-only, [searchMovies]
    resolves with the empty sequence and performs no event at all, in
    particular no [Fetch], whatever the key and the network are. *)
Theorem searchMovies_blank_query
  (API_KEY : option string) (net : Network) (q : string) (page : option N)
  (Hblank : allWhiteSpace q = true) :
  searchMovies API_KEY net (VStr q) page = ([], Resolved (VArr [])).
Proof.
  unfold searchMovies. simpl.
  rewrite truthy_trim, Hblank. reflexivity.
Qed.

Lemma searchMovies_blank_query_witness :
  allWhiteSpace "   " = true /\
  searchMovies (Some "a-real-key") (fun _ => Response true (Json VNull))
    (VStr "   ") None = ([], Resolved (VArr [])).
Proof.
  split; [reflexivity|].
  apply (searchMovies_blank_query (Some "a-real-key") _ "   " None).
  reflexivity.
Defined.

Lemma fetchPopularMovies_placeholder_key (net : Network) (page : option N) :
  fetchPopularMovies (Some "YOUR_TMDB_API_KEY") net page
  = ([dummyWarning], Resolved (moviesVal DUMMY_MOVIES)).
Proof. reflexivity. Qed.

Lemma fetchPopularMovies_cases (API_KEY : option string) (net : Network) (page : option N) :
  snd (fetchPopularMovies API_KEY net page) =
  if keyIsPlaceholder API_KEY then Resolved (moviesVal DUMMY_MOVIES)
  else match net (popularUrl API_KEY page) with
       | Response true (Json (VObj props)) => Resolved (lookup "results" props)
       | Response true (Json (VUndefined | VNull)) => Resolved (moviesVal DUMMY_MOVIES)
       | Response true (Json _) => Resolved VUndefined
       | _ => Resolved (moviesVal DUMMY_MOVIES)
       end.
Proof.
  unfold fetchPopularMovies, fetch.
  destruct (keyIsPlaceholder API_KEY); [reflexivity|].
  cbn [bind tryCatch async].
  outcome_cases (net (popularUrl API_KEY page)); reflexivity.
Qed.

(** What holds of [fetchPopularMovies] for every key: it always
    resolves, and whenever the key is the placeholder, the transport
    fails, the status is not a success or the body is not JSON, it
    resolves with the static dataset [DUMMY_MOVIES], which has 6
    records. *)
Theorem fetchPopularMovies_always_resolves
  (API_KEY : option string) (net : Network) (page : option N) :
  (exists data, snd (fetchPopularMovies API_KEY net page) = Resolved data) /\
  (fallbackMode API_KEY net (popularUrl API_KEY page) ->
   snd (fetchPopularMovies API_KEY net page) = Resolved (moviesVal DUMMY_MOVIES)) /\
  List.length DUMMY_MOVIES = 6%nat.
Proof.
  rewrite fetchPopularMovies_cases. unfold fallbackMode.
  split; [|split; [|reflexivity]].
  - destruct (keyIsPlaceholder API_KEY); [eexists; reflexivity|].
    outcome_cases (net (popularUrl API_KEY page)); eexists; reflexivity.
  - intros [Hkey | Hfail].
    + rewrite Hkey. reflexivity.
    + destruct (keyIsPlaceholder API_KEY); [reflexivity|].
      outcome_cases (net (popularUrl API_KEY page));
        try reflexivity; discriminate Hfail.
Qed.

Lemma fetchPopularMovies_always_resolves_witness :
  fallbackMode (Some "0123456789abcdef") (fun _ => Response false Malformed)
    (popularUrl (Some "0123456789abcdef") (Some 2%N)) /\
  snd (fetchPopularMovies (Some "0123456789abcdef")
         (fun _ => Response false Malformed) (Some 2%N))
  = Resolved (moviesVal DUMMY_MOVIES).
Proof.
  assert (H : fallbackMode (Some "0123456789abcdef") (fun _ => Response false Malformed)
                (popularUrl (Some "0123456789abcdef") (Some 2%N)))
    by (right; reflexivity).
  split; [exact H|].
  exact (proj1 (proj2 (fetchPopularMovies_always_resolves
                         (Some "0123456789abcdef")
                         (fun _ => Response false Malformed) (Some 2%N))) H).
Defined.

(** C2 (the code at the input where it departs from the claim). With no
    key in the environment the sentinel comparison is false and
    [fetchPopularMovies] performs the request, whatever the network is. *)
Theorem fetchPopularMovies_unset_key_fetches (net : Network) (page : option N) :
  keyIsPlaceholder None = false /\
  exists later,
    fst (fetchPopularMovies None net page)
    = Fetch ("https://api.themoviedb.org/3/movie/popular?api_key=undefined&language=en-US&page="
             ++ pageText page)
        "Bearer undefined" :: later.
Proof.
  split; [reflexivity|].
  unfold fetchPopularMovies, fetch. cbn [keyIsPlaceholder bind tryCatch async].
  outcome_cases (net (popularUrl None page)); eexists; reflexivity.
Qed.

(** C1 (the code at the input where it departs from the claim). With no
    key in the environment the sentinel comparison is false, the request
    goes out, and when the remote answers it with success
    [fetchPopularMovies] resolves with the [results] of the answer,
    whatever they are, not with the fallback dataset: a missing
    credential is not a failure case of the code. *)
Theorem fetchPopularMovies_unset_key_returns_remote
  (page : option N) (props : list (string * JsVal)) :
  fetchPopularMovies None (fun _ => Response true (Json (VObj props))) page
  = ([Fetch (popularUrl None page) "Bearer undefined"],
     Resolved (lookup "results" props)) /\
  snd (fetchPopularMovies None
         (fun _ => Response true (Json (VObj [("results", VArr [])]))) None)
  <> Resolved (moviesVal DUMMY_MOVIES).
Proof. split; [reflexivity | discriminate]. Qed.

(** C5 (the code at the input where it departs from the claim). With no
    key in the environment the sentinel comparison is false, the request
    goes out, and when the remote answers it with success
    [fetchMovieDetails] resolves with the payload of the answer, which
    need not be a record of the fallback dataset. *)
Theorem fetchMovieDetails_unset_key_returns_remote
  (movieId : string) (data : JsVal) :
  fetchMovieDetails None (fun _ => Response true (Json data)) movieId
  = ([Fetch (detailsUrl None movieId) "Bearer undefined"], Resolved data) /\
  forall r, In r DUMMY_MOVIES ->
    snd (fetchMovieDetails None
           (fun _ => Response true (Json (VObj [("id", VNum (Fin 1))]))) "1")
    <> Resolved (movieVal r).
Proof.
  split; [reflexivity|]. intros r _. discriminate.
Qed.

Lemma dummyDetails_spec (movieId : string) :
  exists r,
    dummyDetails movieId = movieVal r /\ In r DUMMY_MOVIES /\
    (parseInt movieId = Some (id r) \/
     (forall m, In m DUMMY_MOVIES -> parseInt movieId <> Some (id m)) /\
     nth_error DUMMY_MOVIES 0 = Some r /\ id r = 1%Z /\
     title r = "The Shawshank Redemption").
Proof.
  unfold dummyDetails.
  destruct (find (idIs movieId) DUMMY_MOVIES) as [m|] eqn:F.
  - apply find_some in F as [Hin Hid].
    exists m. split; [reflexivity|]. split; [exact Hin|]. left.
    unfold idIs in Hid. destruct (parseInt movieId) as [k|]; [|discriminate].
    apply Z.eqb_eq in Hid. congruence.
  - eexists. split; [reflexivity|]. split; [left; reflexivity|]. right.
    split; [|repeat split].
    intros m Hin Hp. pose proof (find_none _ _ F m Hin) as Hno.
    unfold idIs in Hno. rewrite Hp, Z.eqb_refl in Hno. discriminate.
Qed.

Lemma fetchMovieDetails_fallback_value
  (API_KEY : option string) (net : Network) (movieId : string) :
  fallbackMode API_KEY net (detailsUrl API_KEY movieId) ->
  snd (fetchMovieDetails API_KEY net movieId) = Resolved (dummyDetails movieId).
Proof.
  unfold fallbackMode, fetchMovieDetails, fetch.
  destruct (keyIsPlaceholder API_KEY); [reflexivity|].
  intros [H | H]; [discriminate|].
  cbn [bind tryCatch async].
  destruct (net (detailsUrl API_KEY movieId)) as [|[|] [|]];
    try reflexivity; discriminate H.
Qed.

(** What holds of [fetchMovieDetails] when the key is the placeholder or
    the request fails: it resolves, for every id, with a record of the
    dataset, the one whose [id] is [parseInt] of the requested id or,
    when no record has that id, the first one, which has id 1 and the
    title "The Shawshank Redemption". *)
Theorem fetchMovieDetails_fallback
  (API_KEY : option string) (net : Network) (movieId : string)
  (Hfallback : fallbackMode API_KEY net (detailsUrl API_KEY movieId)) :
  exists r,
    snd (fetchMovieDetails API_KEY net movieId) = Resolved (movieVal r) /\
    In r DUMMY_MOVIES /\
    (parseInt movieId = Some (id r) \/
     (forall m, In m DUMMY_MOVIES -> parseInt movieId <> Some (id m)) /\
     nth_error DUMMY_MOVIES 0 = Some r /\ id r = 1%Z /\
     title r = "The Shawshank Redemption").
Proof.
  rewrite (fetchMovieDetails_fallback_value _ _ _ Hfallback).
  destruct (dummyDetails_spec movieId) as [r [Hval Hrest]].
  exists r. rewrite Hval. split; [reflexivity | exact Hrest].
Qed.

Lemma fetchMovieDetails_fallback_witness :
  fallbackMode (Some "0123456789abcdef") (fun _ => NetworkFailure)
    (detailsUrl (Some "0123456789abcdef") "550") /\
  exists r,
    snd (fetchMovieDetails (Some "0123456789abcdef") (fun _ => NetworkFailure) "550")
    = Resolved (movieVal r) /\
    In r DUMMY_MOVIES /\
    (parseInt "550" = Some (id r) \/
     (forall m, In m DUMMY_MOVIES -> parseInt "550" <> Some (id m)) /\
     nth_error DUMMY_MOVIES 0 = Some r /\ id r = 1%Z /\
     title r = "The Shawshank Redemption").
Proof.
  assert (H : fallbackMode (Some "0123456789abcdef") (fun _ => NetworkFailure)
                (detailsUrl (Some "0123456789abcdef") "550"))
    by (right; reflexivity).
  split; [exact H|].
  exact (fetchMovieDetails_fallback (Some "0123456789abcdef")
           (fun _ => NetworkFailure) "550" H).
Defined.

Example parseInt_examples :
  (parseInt "3", parseInt "  0x10", parseInt "6abc", parseInt "abc", parseInt "-2")
  = (Some 3, Some 16, Some 6, None, Some (-2))%Z.
Proof. reflexivity. Qed.

Example dummyDetails_by_id :
  exists r, dummyDetails "3" = movieVal r /\ title r = "The Dark Knight".
Proof. eexists. split; reflexivity. Qed.

Example dummyDetails_unknown_id : dummyDetails "550" = dummyDetails "1".
Proof. reflexivity. Qed.

(** *** Case-insensitive search: the code against the words of the specification *)

Lemma prefix_app (a b : string) :
  prefix a b = true <-> exists rest, b = a ++ rest.
Proof.
  revert b. induction a as [|c a IH]; intros b.
  - split; [intros _; exists b; reflexivity | intros _; destruct b; reflexivity].
  - destruct b as [|d b]; cbn [prefix append].
    + split; [discriminate | intros [rest H]; discriminate H].
    + destruct (ascii_dec c d) as [->|Hne].
      * rewrite IH. split; intros [rest H]; exists rest; congruence.
      * split; [discriminate | intros [rest H]; congruence].
Qed.

Lemma includes_app (hay needle : string) :
  includes hay needle = true <-> exists before after, hay = before ++ needle ++ after.
Proof.
  induction hay as [|c hay IH].
  - cbn [includes]. destruct (prefix needle "") eqn:P.
    + apply prefix_app in P as [rest P].
      split; [intros _; exists "", rest; exact P | reflexivity].
    + split; [discriminate|]. intros [before [after H]].
      destruct before; [|discriminate H]. simpl in H.
      assert (prefix needle "" = true) by (apply prefix_app; eauto). congruence.
  - cbn [includes]. destruct (prefix needle (String c hay)) eqn:P.
    + apply prefix_app in P as [rest P].
      split; [intros _; exists "", rest; exact P | reflexivity].
    + rewrite IH. split.
      * intros [before [after H]]. exists (String c before), after.
        simpl. congruence.
      * intros [before [after H]]. destruct before as [|d before].
        -- simpl in H.
           assert (prefix needle (String c hay) = true) by (apply prefix_app; eauto).
           congruence.
        -- simpl in H. exists before, after. congruence.
Qed.

Lemma toLowerCase_app (a b : string) :
  toLowerCase (a ++ b) = toLowerCase a ++ toLowerCase b.
Proof.
  induction a as [|c a IH]; simpl; [reflexivity | now rewrite IH].
Qed.

Lemma toLowerCase_split (t x y : string) :
  toLowerCase t = x ++ y ->
  exists a b, t = a ++ b /\ toLowerCase a = x /\ toLowerCase b = y.
Proof.
  revert t. induction x as [|c x IH]; intros t H.
  - exists "", t. auto.
  - destruct t as [|d t]; [discriminate H|].
    simpl in H. injection H as Hc Ht.
    destruct (IH t Ht) as [a [b [Hab [Ha Hb]]]].
    exists (String d a), b. simpl. repeat split; congruence.
Qed.

Lemma code_bounded (c : ascii) : (code c < 256)%N.
Proof. apply N_ascii_bounded. Qed.

Lemma code_inj (c d : ascii) : code c = code d -> c = d.
Proof.
  unfold code. intros H.
  rewrite <- (ascii_N_embedding c), <- (ascii_N_embedding d). now rewrite H.
Qed.

Lemma lowerCode_bounded (n : N) : (n < 256)%N -> (lowerCode n < 256)%N.
Proof.
  unfold lowerCode, isUpper. intros H.
  destruct (65 <=? n)%N eqn:E1, (n <=? 90)%N eqn:E2, (192 <=? n)%N eqn:E3,
    (n <=? 222)%N eqn:E4, (n =? 215)%N eqn:E5; simpl;
    rewrite ?N.leb_le, ?N.leb_gt, ?N.eqb_eq, ?N.eqb_neq in *; lia.
Qed.

Lemma code_toLowerChar (c : ascii) : code (toLowerChar c) = lowerCode (code c).
Proof.
  unfold toLowerChar, code at 1. apply N_ascii_embedding.
  apply lowerCode_bounded, code_bounded.
Qed.

Lemma isUpper_lowerCode (n : N) : isUpper n = true -> isUpper (n + 32) = false.
Proof.
  unfold isUpper.
  destruct (65 <=? n)%N eqn:E1, (n <=? 90)%N eqn:E2, (192 <=? n)%N eqn:E3,
    (n <=? 222)%N eqn:E4, (n =? 215)%N eqn:E5; simpl; try discriminate; intros _;
    rewrite ?N.leb_le, ?N.leb_gt, ?N.eqb_eq, ?N.eqb_neq in *;
    repeat match goal with
      | |- context [(?a <=? ?b)%N] => destruct (N.leb_spec a b)
      | |- context [(?a =? ?b)%N] => destruct (N.eqb_spec a b)
      end; simpl; try reflexivity; lia.
Qed.

Lemma toLowerChar_sameLetter (c d : ascii) :
  toLowerChar c = toLowerChar d <-> sameLetter c d.
Proof.
  unfold sameLetter, lowerOf. split.
  - intros H. apply (f_equal code) in H. rewrite !code_toLowerChar in H.
    unfold lowerCode in H.
    destruct (isUpper (code c)) eqn:Uc, (isUpper (code d)) eqn:Ud.
    + left. apply code_inj. lia.
    + right; left. split; [reflexivity | lia].
    + right; right. split; [reflexivity | lia].
    + left. apply code_inj. exact H.
  - intros [-> | [[Uc Hd] | [Ud Hc]]]; [reflexivity | |];
      apply code_inj; rewrite !code_toLowerChar; unfold lowerCode.
    + rewrite Uc, Hd, (isUpper_lowerCode _ Uc). reflexivity.
    + rewrite Ud, Hc, (isUpper_lowerCode _ Ud). reflexivity.
Qed.

Lemma toLowerCase_sameIgnoringCase (a b : string) :
  toLowerCase a = toLowerCase b <-> sameIgnoringCase a b.
Proof.
  split.
  - revert b. induction a as [|c a IH]; intros [|d b] H; try discriminate H.
    + constructor.
    + simpl in H. injection H as Hc Hr. constructor.
      * now apply toLowerChar_sameLetter.
      * now apply IH.
  - induction 1 as [|c d r r' Hl _ IH]; simpl; [reflexivity|].
    apply toLowerChar_sameLetter in Hl. congruence.
Qed.

(** The test of the filter callback is the containment the specification
    words. *)
Lemma includes_containsIgnoringCase (text q : string) :
  includes (toLowerCase text) (toLowerCase q) = true <-> containsIgnoringCase text q.
Proof.
  rewrite includes_app. unfold containsIgnoringCase. split.
  - intros [before [after H]].
    apply toLowerCase_split in H as [a [rest [Ht [Ha Hrest]]]].
    apply toLowerCase_split in Hrest as [m [b [Hr [Hm Hb]]]].
    exists a, m, b. split; [congruence|].
    now apply toLowerCase_sameIgnoringCase.
  - intros [a [m [b [Ht Hm]]]].
    apply toLowerCase_sameIgnoringCase in Hm.
    exists (toLowerCase a), (toLowerCase b).
    rewrite Ht, !toLowerCase_app. congruence.
Qed.

Lemma filterE_total {A : Type} (p : A -> bool) (xs : list A) :
  filterE (fun x => Normal (p x)) xs = Normal (filter p xs).
Proof.
  induction xs as [|x xs IH]; simpl; [reflexivity|].
  rewrite IH. reflexivity.
Qed.

Lemma filter_subsequence {A : Type} (p : A -> bool) (xs : list A) :
  subsequence (filter p xs) xs.
Proof.
  induction xs as [|x xs IH]; simpl; [constructor|].
  destruct (p x); now constructor.
Qed.

Lemma filterDummy_string (q : string) : filterDummy (VStr q) = Normal (matching q).
Proof. unfold filterDummy. cbn [stringMethod]. apply filterE_total. Qed.

Lemma searchMovies_fallback_value
  (API_KEY : option string) (net : Network) (q : string) (page : option N) :
  allWhiteSpace q = false ->
  fallbackMode API_KEY net (searchUrl API_KEY (VStr q) page) ->
  snd (searchMovies API_KEY net (VStr q) page) = Resolved (moviesVal (matching q)).
Proof.
  intros Hq Hfb. unfold searchMovies, fetch.
  cbn [stringMethod lift bind].
  rewrite truthy_trim, Hq. cbn [negb].
  rewrite filterDummy_string.
  destruct (keyIsPlaceholder API_KEY) eqn:K; [reflexivity|].
  destruct Hfb as [Hfb | Hfb]; [unfold fallbackMode in *; congruence|].
  cbn [bind tryCatch async].
  outcome_cases (net (searchUrl API_KEY (VStr q) page));
    try reflexivity; discriminate Hfb.
Qed.

Lemma searchMovies_string_resolves
  (API_KEY : option string) (net : Network) (q : string) (page : option N) :
  exists data, snd (searchMovies API_KEY net (VStr q) page) = Resolved data.
Proof.
  unfold searchMovies, fetch. cbn [stringMethod lift bind].
  rewrite truthy_trim, filterDummy_string.
  destruct (allWhiteSpace q); [eexists; reflexivity|]. cbn [negb].
  destruct (keyIsPlaceholder API_KEY); [eexists; reflexivity|].
  cbn [bind tryCatch async].
  outcome_cases (net (searchUrl API_KEY (VStr q) page)); eexists; reflexivity.
Qed.

(** C10. [searchMovies] always resolves on a string, and only there: for
    the queries [null] and [undefined] it rejects with a TypeError.  The
    throw of [query.trim()] is caught and logged, the filter of the
    handler throws again outside any handler, and no request is made. *)
Theorem searchMovies_non_string_rejects
  (API_KEY : option string) (net : Network) (query : JsVal) (page : option N)
  (Hquery : query = VNull \/ query = VUndefined) :
  searchMovies API_KEY net query page
  = ([ConsoleError "Error searching movies:" TypeError], Rejected TypeError) /\
  (forall q, exists data,
     snd (searchMovies API_KEY net (VStr q) page) = Resolved data).
Proof.
  split; [destruct Hquery as [-> | ->]; reflexivity|].
  intros q. apply searchMovies_string_resolves.
Qed.

Lemma searchMovies_non_string_rejects_witness :
  searchMovies (Some "YOUR_TMDB_API_KEY") (fun _ => NetworkFailure) VNull None
  = ([ConsoleError "Error searching movies:" TypeError], Rejected TypeError).
Proof.
  apply (searchMovies_non_string_rejects
           (Some "YOUR_TMDB_API_KEY") (fun _ => NetworkFailure) VNull None).
  left. reflexivity.
Defined.

(** C4, as the specification words it, fails on the query of one space: it
    is not empty, five of the six fallback titles contain it, and the
    search returns nothing. *)
Lemma searchMovies_fallback_space_counterexample :
  ~ (forall API_KEY net q page,
       q <> "" ->
       fallbackMode API_KEY net (searchUrl API_KEY (VStr q) page) ->
       exists found,
         snd (searchMovies API_KEY net (VStr q) page) = Resolved (moviesVal found) /\
         forall m, In m found <->
                   In m DUMMY_MOVIES /\ containsIgnoringCase (title m) q).
Proof.
  intros H.
  destruct (H (Some "YOUR_TMDB_API_KEY") (fun _ => NetworkFailure) " " None)
    as [found [Hres Hin]].
  - discriminate.
  - left. reflexivity.
  - assert (Hfound : found = []).
    { cbv in Hres. destruct found; [reflexivity | discriminate Hres]. }
    subst found.
    destruct (nth_error DUMMY_MOVIES 1) as [m|] eqn:E; [|discriminate E].
    apply (proj2 (Hin m)). split.
    + apply (nth_error_In _ _ E).
    + injection E as <-. exists "The", " ", "Godfather".
      split; [reflexivity|]. repeat constructor.
Qed.

(** C4, amended. In fallback mode and for every query that is not
    whitespace-only, [searchMovies] resolves with exactly the fallback
    records whose title contains the query as a case-insensitive
    substring, in the order of the dataset; for "inception" that is the
    single record titled "Inception". *)
Theorem searchMovies_fallback_filter
  (API_KEY : option string) (net : Network) (q : string) (page : option N)
  (Hq : allWhiteSpace q = false)
  (Hfallback : fallbackMode API_KEY net (searchUrl API_KEY (VStr q) page)) :
  exists found,
    snd (searchMovies API_KEY net (VStr q) page) = Resolved (moviesVal found) /\
    subsequence found DUMMY_MOVIES /\
    (forall m, In m found <->
               In m DUMMY_MOVIES /\ containsIgnoringCase (title m) q) /\
    (q = "inception" -> exists r, found = [r] /\ title r = "Inception").
Proof.
  exists (matching q).
  split; [apply searchMovies_fallback_value; assumption|].
  split; [apply filter_subsequence|].
  split.
  - intros m. unfold matching. rewrite filter_In.
    rewrite includes_containsIgnoringCase. reflexivity.
  - intros ->. eexists. split; reflexivity.
Qed.

Lemma searchMovies_fallback_filter_witness :
  exists found,
    snd (searchMovies (Some "YOUR_TMDB_API_KEY") (fun _ => NetworkFailure)
           (VStr "inception") None) = Resolved (moviesVal found) /\
    subsequence found DUMMY_MOVIES /\
    (forall m, In m found <->
               In m DUMMY_MOVIES /\ containsIgnoringCase (title m) "inception") /\
    ("inception" = "inception" -> exists r, found = [r] /\ title r = "Inception").
Proof.
  apply (searchMovies_fallback_filter (Some "YOUR_TMDB_API_KEY")
           (fun _ => NetworkFailure) "inception" None).
  - reflexivity.
  - left. reflexivity.
Defined.

Example matching_inception : map title (matching "INCEPTION") = ["Inception"].
Proof. reflexivity. Qed.

Example matching_the :
  map title (matching "the ")
  = ["The Shawshank Redemption"; "The Godfather"; "The Dark Knight"].
Proof. reflexivity. Qed.

(** ** The formatting helpers *)

(** C7, as the specification words it, fails on the empty path: a string
    is passed, and the placeholder comes back instead of the
    concatenation. *)
Lemma getImageUrl_empty_path_counterexample :
  getImageUrl (Some "") (Some "w500") = placeholderImage /\
  getImageUrl (Some "") (Some "w500") <> IMAGE_BASE_URL ++ "/" ++ "w500" ++ "".
Proof. split; [reflexivity | discriminate]. Qed.

(** C7, amended. [getImageUrl] returns the fixed placeholder for an absent
    or empty path, whatever the size token; for every other path it
    returns the image host base, a slash, the size token ("w500" when
    omitted) and the path, the token being used as it is; so
    [getImageUrl("/abc.jpg", "w500")] is
    "https://image.tmdb.org/t/p/w500/abc.jpg". *)
Theorem getImageUrl_cases (path size : option string) :
  (path = None \/ path = Some "" -> getImageUrl path size = placeholderImage) /\
  (forall p, path = Some p -> p <> "" ->
     getImageUrl path size
     = "https://image.tmdb.org/t/p" ++ "/"
       ++ match size with Some token => token | None => "w500" end ++ p) /\
  getImageUrl (Some "/abc.jpg") (Some "w500")
  = "https://image.tmdb.org/t/p/w500/abc.jpg".
Proof.
  split; [|split].
  - intros [-> | ->]; reflexivity.
  - intros p -> Hp. unfold getImageUrl.
    destruct p as [|c p]; [contradiction|]. reflexivity.
  - reflexivity.
Qed.

Lemma getImageUrl_cases_witness :
  getImageUrl (Some "/poster.png") (Some "original")
  = "https://image.tmdb.org/t/p" ++ "/" ++ "original" ++ "/poster.png".
Proof.
  apply (proj1 (proj2 (getImageUrl_cases (Some "/poster.png") (Some "original")))
           "/poster.png" eq_refl).
  discriminate.
Defined.

Lemma string_of_uint_digits (u : Decimal.uint) :
  allDigits (NilZero.string_of_uint u) = true /\ NilZero.string_of_uint u <> "".
Proof.
  assert (H : forall v, allDigits (NilEmpty.string_of_uint v) = true)
    by (induction v; simpl; auto).
  destruct u; (split; [first [reflexivity | apply H] | simpl; discriminate]).
Qed.

Lemma decimal_digits (n : N) : allDigits (decimal n) = true /\ decimal n <> "".
Proof. apply string_of_uint_digits. Qed.

Lemma decimal_one_digit (d : N) :
  (d < 10)%N -> exists c, decimal d = String c "" /\ isDigit c = true.
Proof.
  intros H.
  assert (E : (d = 0 \/ d = 1 \/ d = 2 \/ d = 3 \/ d = 4 \/ d = 5 \/ d = 6
               \/ d = 7 \/ d = 8 \/ d = 9)%N) by lia.
  repeat (destruct E as [-> | E]; [eexists; split; reflexivity|]).
  subst d. eexists; split; reflexivity.
Qed.

Lemma unsignedOneDecimal_digits (ds : string) (d : ascii) :
  allDigits ds = true -> ds <> "" -> isDigit d = true ->
  unsignedOneDecimal (ds ++ String "." (String d "")) = true.
Proof.
  intros Hds Hne Hd. induction ds as [|c ds IH]; [contradiction|].
  cbn [allDigits] in Hds. apply andb_true_iff in Hds as [Hc Hds].
  cbn [append unsignedOneDecimal]. rewrite Hc. cbn [andb].
  destruct ds as [|c' ds].
  - cbn [append pointDigit]. rewrite Hd. reflexivity.
  - rewrite IH; [apply orb_true_r | exact Hds | discriminate].
Qed.

Lemma oneDecimal_rendering (negative : bool) (n : N) :
  oneDecimal ((if negative then "-" else "")
              ++ decimal (n / 10) ++ "." ++ decimal (n mod 10)) = true.
Proof.
  destruct (decimal_digits (n / 10)) as [Hall Hne].
  destruct (decimal_one_digit (n mod 10)) as [d [Hd Hdig]];
    [apply N.mod_lt; discriminate|].
  rewrite Hd.
  assert (Hbody : unsignedOneDecimal (decimal (n / 10) ++ String "." (String d "")) = true)
    by (apply unsignedOneDecimal_digits; assumption).
  destruct negative.
  - exact Hbody.
  - cbn [append]. destruct (decimal (n / 10)) as [|c r] eqn:E; [contradiction|].
    cbn [append oneDecimal]. cbn [append] in Hbody.
    destruct (Ascii.eqb c "-") eqn:Ec; [|exact Hbody].
    apply Ascii.eqb_eq in Ec. subst c. discriminate Hall.
Qed.

Lemma nearestTenths_rounds (x : Q) :
  0 <= x -> roundsToTenths x (nearestTenths x).
Proof.
  intros Hx. unfold roundsToTenths, nearestTenths.
  pose proof (Qfloor_le (10 * x + (1 # 2))) as Hlo.
  pose proof (Qlt_floor (10 * x + (1 # 2))) as Hhi.
  assert (Hz : (0 <= Qfloor (10 * x + (1 # 2)))%Z).
  { change 0%Z with (Qfloor 0). apply Qfloor_resp_le. lra. }
  rewrite Z2N.id by exact Hz.
  rewrite inject_Z_plus in Hhi.
  set (z := inject_Z (Qfloor (10 * x + (1 # 2)))) in *.
  change (inject_Z 1) with 1 in Hhi. clearbody z.
  apply Qabs_Qle_condition. unfold Qdiv. change (/ 10) with (1 # 10).
  split; lra.
Qed.

(** The literal [8.7] denotes the double next to 87/10: in its binade
    doubles are 2^-49 apart. *)
Lemma lit_8_7_nearest :
  exists q, lit_8_7 = Fin q /\ Qabs (q - (87 # 10)) <= 1 # (2 ^ 50).
Proof.
  eexists. split; [reflexivity|].
  apply Qabs_Qle_condition. split; unfold Qle; simpl; lia.
Qed.

(** C6, as the specification words it, fails on an infinite rating: it is
    a truthy number, and its rendering has no decimal digit. *)
Lemma formatRating_infinity_counterexample :
  ~ (forall (exponential : Q -> string) (x : Number),
       toBoolean (VNum x) = true ->
       exists s, formatRating exponential (VNum x) = Normal s /\ oneDecimal s = true).
Proof.
  intros H.
  destruct (H (fun _ => "") (Infinity false) eq_refl) as [s [Hs Hd]].
  cbv in Hs. injection Hs as <-. discriminate Hd.
Qed.

(** C6, amended. [formatRating] maps every falsy input ([undefined],
    [null], [false], the empty string, NaN and 0) to "N/A", and every
    other finite number of magnitude below 10^21 to the decimal numeral
    with exactly one digit after the point that is nearest to it, the one
    of larger magnitude of two; so 0 and [undefined] give "N/A" and 8.7
    gives "8.7". *)
Theorem formatRating_cases (exponential : Q -> string) (rating : JsVal) :
  (toBoolean rating = false -> formatRating exponential rating = Normal "N/A") /\
  (forall q, rating = VNum (Fin q) -> ~ q == 0 -> Qabs q < 10 ^ 21 ->
     exists n s,
       formatRating exponential rating = Normal s /\
       s = (if Qle_bool 0 q then "" else "-")
           ++ decimal (n / 10) ++ "." ++ decimal (n mod 10) /\
       roundsToTenths (Qabs q) n /\
       (forall k, roundsToTenths (Qabs q) k -> (k <= n)%N) /\
       oneDecimal s = true) /\
  formatRating exponential (VNum (Fin 0)) = Normal "N/A" /\
  formatRating exponential (VNum lit_8_7) = Normal "8.7" /\
  formatRating exponential VUndefined = Normal "N/A".
Proof.
  split; [|split; [|repeat split]].
  - intros H. unfold formatRating. rewrite H. reflexivity.
  - intros q -> Hq Hbig.
    assert (Hnum : (Qnum q =? 0)%Z = false).
    { apply Z.eqb_neq. intros E. apply Hq. unfold Qeq. simpl. lia. }
    assert (Hle : Qle_bool (10 ^ 21) (Qabs q) = false).
    { destruct (Qle_bool (10 ^ 21) (Qabs q)) eqn:E; [|reflexivity].
      apply Qle_bool_iff in E. exfalso. apply (Qlt_not_le _ _ Hbig E). }
    assert (Hsign : (Qnum q <? 0)%Z = negb (Qle_bool 0 q)).
    { unfold Qle_bool. simpl. rewrite Z.mul_1_r.
      destruct (Z.ltb_spec (Qnum q) 0), (Z.leb_spec 0 (Qnum q)); simpl; lia. }
    exists (nearestTenths (Qabs q)). eexists.
    split; [|split; [reflexivity|split; [|split]]].
    + unfold formatRating. cbn [toBoolean]. rewrite Hnum. cbn [negb toFixed1].
      rewrite Hle, Hsign. destruct (Qle_bool 0 q); reflexivity.
    + apply nearestTenths_rounds, Qabs_nonneg.
    + intros k Hk. unfold roundsToTenths in Hk.
      apply Qabs_Qle_condition in Hk as [Hk _].
      unfold Qdiv in Hk. change (/ 10) with (1 # 10) in Hk.
      unfold nearestTenths.
      assert (Hkz : (Z.of_N k <= Qfloor (10 * Qabs q + (1 # 2)))%Z).
      { rewrite <- (Qfloor_Z (Z.of_N k)). apply Qfloor_resp_le. lra. }
      lia.
    + destruct (Qle_bool 0 q).
      * apply (oneDecimal_rendering false).
      * apply (oneDecimal_rendering true).
Qed.

Lemma formatRating_cases_witness :
  exists n s,
    formatRating (fun _ => "") (VNum (Fin (-(145 # 20)))) = Normal s /\
    s = (if Qle_bool 0 (-(145 # 20)) then "" else "-")
        ++ decimal (n / 10) ++ "." ++ decimal (n mod 10) /\
    roundsToTenths (Qabs (-(145 # 20))) n /\
    (forall k, roundsToTenths (Qabs (-(145 # 20))) k -> (k <= n)%N) /\
    oneDecimal s = true.
Proof.
  apply (proj1 (proj2 (formatRating_cases (fun _ => "") (VNum (Fin (-(145 # 20))))))
           (-(145 # 20)) eq_refl).
  - unfold Qeq. simpl. lia.
  - unfold Qlt. simpl. lia.
Defined.

(** ** The list view *)

Import Home.

Lemma timersOwned_mount (t0 : Z) : timersOwned (mount t0).
Proof. left. reflexivity. Qed.

Lemma fireTimers_idle (now : Z) (s : State) :
  (forall tm, In tm (timers s) -> (now < deadline tm)%Z) ->
  fireTimers now s = s.
Proof.
  intros H. unfold fireTimers.
  replace (filter (isDue now) (timers s)) with (@nil Timer); [reflexivity|].
  symmetry. induction (timers s) as [|tm l IH]; [reflexivity|].
  simpl. unfold isDue at 1.
  destruct (Z.leb_spec (deadline tm) now) as [Hle|_].
  - specialize (H tm (or_introl eq_refl)). lia.
  - apply IH. intros tm' Hin. apply H. now right.
Qed.

Lemma timersOwned_fireTimers (now : Z) (s : State) :
  timersOwned s -> timersOwned (fireTimers now s).
Proof.
  intros [Hnil | [tm [Htm Hc]]]; unfold fireTimers.
  - rewrite Hnil. simpl. now left.
  - rewrite Htm. simpl. destruct (isDue now tm); simpl.
    + left. cbn. rewrite Htm. cbn. now rewrite Nat.eqb_refl.
    + right. eauto.
Qed.

Lemma runCleanup_clears (value : string) (s : State) :
  timersOwned s -> timers (runCleanup (setSearchQuery value s)) = [].
Proof.
  unfold runCleanup. simpl.
  intros [Hnil | [tm [Htm Hc]]].
  - destruct (cleanup s); simpl; now rewrite Hnil.
  - rewrite Hc. simpl. rewrite Htm. simpl. now rewrite Nat.eqb_refl.
Qed.

Lemma timersOwned_handleSearchChange (now : Z) (value : string) (s : State) :
  timersOwned s -> timersOwned (handleSearchChange now value s).
Proof.
  intros H. unfold handleSearchChange.
  destruct (String.eqb value (searchQuery s)); [exact H|].
  pose proof (runCleanup_clears value s H) as Hc.
  unfold searchEffect.
  destruct (truthy (trim (searchQuery (runCleanup (setSearchQuery value s))))).
  - right. eexists. simpl. rewrite Hc. split; reflexivity.
  - left. destruct (isSearching (noCleanup (runCleanup (setSearchQuery value s))));
      simpl; exact Hc.
Qed.

Lemma timersOwned_step (s : State) (ev : Z * Input) :
  timersOwned s -> timersOwned (step s ev).
Proof.
  intros H. unfold step.
  pose proof (timersOwned_fireTimers (fst ev) s H) as H'.
  destruct (snd ev) as [value| |[data|e]|[data|e]|]; simpl; try exact H'.
  apply timersOwned_handleSearchChange, H'.
Qed.

Lemma timersOwned_run (evs : list (Z * Input)) (s : State) :
  timersOwned s -> timersOwned (run evs s).
Proof.
  revert s. induction evs as [|ev evs IH]; intros s H; [exact H|].
  simpl. apply IH, timersOwned_step, H.
Qed.

Lemma timersOwned_reachable (s : State) : reachable s -> timersOwned s.
Proof.
  intros [t0 [evs ->]]. apply timersOwned_run, timersOwned_mount.
Qed.

Lemma truthy_nonempty (s : string) : s <> "" -> truthy s = true.
Proof. destruct s; [contradiction | reflexivity]. Qed.

Lemma runCleanup_keeps (value : string) (s : State) :
  let s' := runCleanup (setSearchQuery value s) in
  searchQuery s' = value /\ isSearching s' = isSearching s /\ calls s' = calls s.
Proof.
  unfold runCleanup. simpl. destruct (cleanup s); simpl; auto.
Qed.

(** C9. In a reachable state, a change of the text to one whose trimmed
    form is empty leaves no timeout pending and search mode off; it
    issues exactly one [fetchPopularMovies] call when search mode was
    active, and no call at all when it was not. *)
Theorem clearing_search_reloads
  (s : State) (now : Z) (value : string)
  (Hreach : reachable s)
  (Hchange : value <> searchQuery s)
  (Hempty : trim value = "") :
  let s' := handleSearchChange now value s in
  timers s' = [] /\ isSearching s' = false /\ searchQuery s' = value /\
  (isSearching s = true -> calls s' = (calls s ++ [FetchPopularMovies now])%list) /\
  (isSearching s = false -> calls s' = calls s).
Proof.
  apply timersOwned_reachable in Hreach.
  pose proof (runCleanup_clears value s Hreach) as Hclear.
  destruct (runCleanup_keeps value s) as [Hq [Hs Hcalls]].
  unfold handleSearchChange.
  apply String.eqb_neq in Hchange. rewrite Hchange.
  unfold searchEffect. rewrite Hq, Hempty. cbn [truthy].
  set (r := runCleanup (setSearchQuery value s)) in *.
  change (isSearching (noCleanup r)) with (isSearching r).
  rewrite Hs. destruct (isSearching s); cbn.
  - rewrite Hclear, Hq, Hcalls. repeat split; auto. discriminate.
  - rewrite Hclear, Hq, Hcalls, Hs. repeat split; auto. discriminate.
Qed.

Lemma clearing_search_reloads_witness :
  let s := run [(0, Change "a"); (600, Change "ab")]%Z (mount 0) in
  let s' := handleSearchChange 700 "" s in
  isSearching s = true /\ timers s <> [] /\
  timers s' = [] /\ isSearching s' = false /\ searchQuery s' = "" /\
  (isSearching s = true -> calls s' = (calls s ++ [FetchPopularMovies 700])%list) /\
  (isSearching s = false -> calls s' = calls s).
Proof.
  split; [reflexivity|]. split; [discriminate|].
  apply (clearing_search_reloads
           (run [(0, Change "a"); (600, Change "ab")]%Z (mount 0)) 700 "").
  - exists 0%Z, [(0, Change "a"); (600, Change "ab")]%Z. reflexivity.
  - discriminate.
  - reflexivity.
Defined.

Lemma armed_timersOwned (t : Z) (v : string) (s : State) :
  armed t v s -> timersOwned s.
Proof. intros [_ [i [Ht Hc]]]. right. eexists. split; [exact Ht | exact Hc]. Qed.

Lemma step_change_arms (s : State) (t : Z) (v : string) :
  timersOwned s ->
  (forall tm, In tm (timers s) -> (t < deadline tm)%Z) ->
  v <> searchQuery s -> trim v <> "" ->
  armed t v (step s (t, Change v)) /\ calls (step s (t, Change v)) = calls s.
Proof.
  intros Hown Hidle Hchange Hv.
  unfold step. cbn [fst snd handle]. rewrite (fireTimers_idle t s Hidle).
  pose proof (runCleanup_clears v s Hown) as Hclear.
  destruct (runCleanup_keeps v s) as [Hq [_ Hcalls]].
  unfold handleSearchChange.
  apply String.eqb_neq in Hchange. rewrite Hchange.
  unfold searchEffect. rewrite Hq, (truthy_nonempty _ Hv).
  unfold armed. cbn. rewrite Hclear, Hq, Hcalls.
  split; [split; [reflexivity | eexists; split; reflexivity] | reflexivity].
Qed.

Lemma burst_stays_armed (ks : list (Z * string)) :
  forall (s : State) (t : Z) (v : string),
    timersOwned s ->
    (forall tm, In tm (timers s) -> (t + 500 <= deadline tm)%Z) ->
    searchQuery s = v ->
    forall tn vn,
      burst t v (ks ++ [(tn, vn)]) ->
      armed tn vn (run (keystrokes (ks ++ [(tn, vn)])) s) /\
      calls (run (keystrokes (ks ++ [(tn, vn)])) s) = calls s.
Proof.
  induction ks as [|[t1 v1] ks IH]; intros s t v Hown Hidle Hq tn vn Hb.
  - cbn in Hb. destruct Hb as [Ht [Hv [Hne _]]]. cbn.
    apply step_change_arms; try assumption.
    + intros tm Hin. specialize (Hidle tm Hin). lia.
    + congruence.
  - cbn [app burst] in Hb. destruct Hb as [Ht [Hv [Hne Hb]]].
    change (run (keystrokes (((t1, v1) :: ks) ++ [(tn, vn)])) s)
      with (run (keystrokes (ks ++ [(tn, vn)])) (step s (t1, Change v1))).
    destruct (step_change_arms s t1 v1) as [Harm Hcalls]; try assumption.
    + intros tm Hin. specialize (Hidle tm Hin). lia.
    + congruence.
    + destruct (IH (step s (t1, Change v1)) t1 v1) with (tn := tn) (vn := vn)
        as [Harm' Hcalls'].
      * eapply armed_timersOwned, Harm.
      * destruct Harm as [_ [i [Htm _]]]. rewrite Htm.
        intros tm [<- | []]. cbn. lia.
      * apply Harm.
      * exact Hb.
      * split; [exact Harm' | congruence].
Qed.

Lemma armed_wait (t : Z) (v : string) (s : State) (now : Z) :
  armed t v s ->
  calls (step s (now, Wait))
  = if (t + 500 <=? now)%Z then (calls s ++ [SearchMovies (t + 500) v])%list else calls s.
Proof.
  intros [_ [i [Htm _]]]. unfold step, fireTimers. cbn [fst snd handle].
  rewrite Htm. cbn [filter]. unfold isDue. cbn [deadline].
  destruct (t + 500 <=? now)%Z; reflexivity.
Qed.

(** C8. From a reachable state where no timeout is due within the burst, a
    burst of keystrokes (each changing the text to one whose trimmed form
    is not empty, each less than 500 ms after the one before) leaves one
    timeout pending, set by the last keystroke for 500 ms later, every
    earlier one being cancelled; it issues no request while it lasts and
    none in the 500 ms after its last keystroke; from 500 ms after the
    last keystroke on, exactly one search has been issued, at that
    instant, with the final text.  For keystrokes at 0, 100 and 200 ms
    that is one search at 700 ms. *)
Theorem debounce_single_search
  (s : State) (t0 : Z) (ks : list (Z * string)) (tn : Z) (vn : string)
  (Hreach : reachable s)
  (Hidle : forall tm, In tm (timers s) -> (t0 + 500 <= deadline tm)%Z)
  (Hburst : burst t0 (searchQuery s) (ks ++ [(tn, vn)])) :
  let s' := run (keystrokes (ks ++ [(tn, vn)])) s in
  armed tn vn s' /\
  calls s' = calls s /\
  (forall t, (t < tn + 500)%Z -> calls (step s' (t, Wait)) = calls s) /\
  (forall t, (tn + 500 <= t)%Z ->
     calls (step s' (t, Wait)) = (calls s ++ [SearchMovies (tn + 500) vn])%list).
Proof.
  destruct (burst_stays_armed ks s t0 (searchQuery s)) with (tn := tn) (vn := vn)
    as [Harm Hcalls]; auto using timersOwned_reachable.
  cbv zeta. split; [exact Harm|]. split; [exact Hcalls|]. split; intros t Ht.
  - rewrite (armed_wait tn vn _ t Harm).
    destruct (Z.leb_spec (tn + 500) t); [lia | exact Hcalls].
  - rewrite (armed_wait tn vn _ t Harm).
    destruct (Z.leb_spec (tn + 500) t); [now rewrite Hcalls | lia].
Qed.

Lemma debounce_single_search_witness :
  let s' := run (keystrokes [(0, "i"); (100, "in"); (200, "inc")]%Z) (mount 0) in
  armed 200 "inc" s' /\
  calls s' = [FetchPopularMovies 0] /\
  (forall t, (t < 700)%Z -> calls (step s' (t, Wait)) = [FetchPopularMovies 0]) /\
  (forall t, (700 <= t)%Z ->
     calls (step s' (t, Wait)) = [FetchPopularMovies 0; SearchMovies 700 "inc"]).
Proof.
  apply (debounce_single_search (mount 0) 0 [(0, "i"); (100, "in")]%Z 200 "inc").
  - exists 0%Z, []. reflexivity.
  - intros tm [].
  - cbn. repeat split; try lia; discriminate.
Defined.

(** The scenario of the specification, run: keystrokes at 0, 100 and
    200 ms, observed just before and at 700 ms. *)
Example debounce_trace_before :
  calls (run [(0, Change "i"); (100, Change "in"); (200, Change "inc"); (699, Wait)]%Z
           (mount 0))
  = [FetchPopularMovies 0].
Proof. reflexivity. Qed.

Example debounce_trace_after :
  calls (run [(0, Change "i"); (100, Change "in"); (200, Change "inc"); (700, Wait)]%Z
           (mount 0))
  = [FetchPopularMovies 0; SearchMovies 700 "inc"].
Proof. reflexivity. Qed.

(** Clearing the box before the timeout fires only cancels it. *)
Example clear_before_search :
  calls (run [(0, Change "i"); (300, Change ""); (2000, Wait)]%Z (mount 0))
  = [FetchPopularMovies 0].
Proof. reflexivity. Qed.

(** Submitting the form searches at once and leaves the timeout pending. *)
Example submit_does_not_cancel :
  calls (run [(0, Change "i"); (100, Submit); (500, Wait)]%Z (mount 0))
  = [FetchPopularMovies 0; SearchMovies 100 "i"; SearchMovies 500 "i"].
Proof. reflexivity. Qed.

(** ** Further properties of the catalog client *)

Import Observe.

(** The three operations, case by case: the events and the promise. *)
Lemma fetchPopularMovies_run (API_KEY : option string) (net : Network) (page : option N) :
  fetchPopularMovies API_KEY net page =
  if keyIsPlaceholder API_KEY then ([dummyWarning], Resolved (moviesVal DUMMY_MOVIES))
  else
    let request := Fetch (popularUrl API_KEY page) (authorization API_KEY) in
    let log := ConsoleError "Error fetching popular movies:" in
    match net (popularUrl API_KEY page) with
    | NetworkFailure => ([request; log TypeError], Resolved (moviesVal DUMMY_MOVIES))
    | Response false _ =>
        ([request; log (Error "Failed to fetch popular movies")],
         Resolved (moviesVal DUMMY_MOVIES))
    | Response true Malformed =>
        ([request; log SyntaxError], Resolved (moviesVal DUMMY_MOVIES))
    | Response true (Json data) =>
        match getProp data "results" with
        | Normal results => ([request], Resolved results)
        | Throw e => ([request; log e], Resolved (moviesVal DUMMY_MOVIES))
        end
    end.
Proof.
  unfold fetchPopularMovies, fetch.
  destruct (keyIsPlaceholder API_KEY); [reflexivity|].
  cbn [bind tryCatch async].
  outcome_cases (net (popularUrl API_KEY page)); reflexivity.
Qed.

Lemma searchMovies_run
  (API_KEY : option string) (net : Network) (q : string) (page : option N) :
  searchMovies API_KEY net (VStr q) page =
  if allWhiteSpace q then ([], Resolved (VArr []))
  else if keyIsPlaceholder API_KEY then
    ([dummyWarning], Resolved (moviesVal (matching q)))
  else
    let request := Fetch (searchUrl API_KEY (VStr q) page) (authorization API_KEY) in
    let log := ConsoleError "Error searching movies:" in
    match net (searchUrl API_KEY (VStr q) page) with
    | NetworkFailure => ([request; log TypeError], Resolved (moviesVal (matching q)))
    | Response false _ =>
        ([request; log (Error "Failed to search movies")],
         Resolved (moviesVal (matching q)))
    | Response true Malformed =>
        ([request; log SyntaxError], Resolved (moviesVal (matching q)))
    | Response true (Json data) =>
        match getProp data "results" with
        | Normal results => ([request], Resolved results)
        | Throw e => ([request; log e], Resolved (moviesVal (matching q)))
        end
    end.
Proof.
  unfold searchMovies, fetch. cbn [stringMethod lift bind].
  rewrite truthy_trim, filterDummy_string.
  destruct (allWhiteSpace q); [reflexivity|]. cbn [negb].
  destruct (keyIsPlaceholder API_KEY); [reflexivity|].
  cbn [bind tryCatch async].
  outcome_cases (net (searchUrl API_KEY (VStr q) page)); reflexivity.
Qed.

Lemma searchMovies_run_other
  (API_KEY : option string) (net : Network) (query : JsVal) (page : option N) :
  (forall q, query <> VStr q) ->
  searchMovies API_KEY net query page
  = ([ConsoleError "Error searching movies:" TypeError], Rejected TypeError).
Proof.
  intros H. destruct query; try reflexivity. elim (H s). reflexivity.
Qed.

Lemma fetchMovieDetails_run (API_KEY : option string) (net : Network) (movieId : string) :
  fetchMovieDetails API_KEY net movieId =
  if keyIsPlaceholder API_KEY then ([dummyWarning], Resolved (dummyDetails movieId))
  else
    let request := Fetch (detailsUrl API_KEY movieId) (authorization API_KEY) in
    let log := ConsoleError "Error fetching movie details:" in
    match net (detailsUrl API_KEY movieId) with
    | NetworkFailure => ([request; log TypeError], Resolved (dummyDetails movieId))
    | Response false _ =>
        ([request; log (Error "Failed to fetch movie details")],
         Resolved (dummyDetails movieId))
    | Response true Malformed =>
        ([request; log SyntaxError], Resolved (dummyDetails movieId))
    | Response true (Json data) => ([request], Resolved data)
    end.
Proof.
  unfold fetchMovieDetails, fetch.
  destruct (keyIsPlaceholder API_KEY); [reflexivity|].
  cbn [bind tryCatch async].
  destruct (net (detailsUrl API_KEY movieId)) as [|[|] [|]]; reflexivity.
Qed.

(** X1. No operation of the client retries: whatever the key, the
    network and the arguments are, a call performs at most one request,
    and none at all when the key is the placeholder. *)
Theorem client_single_attempt
  (API_KEY : option string) (net : Network)
  (page : option N) (query : JsVal) (movieId : string) :
  let popular := fst (fetchPopularMovies API_KEY net page) in
  let search := fst (searchMovies API_KEY net query page) in
  let details := fst (fetchMovieDetails API_KEY net movieId) in
  (fetches popular <= 1 /\ fetches search <= 1 /\ fetches details <= 1)%nat /\
  (keyIsPlaceholder API_KEY = true ->
   fetches popular = 0 /\ fetches search = 0 /\ fetches details = 0)%nat.
Proof.
  cbv zeta.
  rewrite fetchPopularMovies_run, fetchMovieDetails_run.
  assert (Hsearch :
    (fetches (fst (searchMovies API_KEY net query page)) <= 1)%nat /\
    (keyIsPlaceholder API_KEY = true ->
     fetches (fst (searchMovies API_KEY net query page)) = 0%nat)).
  { destruct query as [| | | |q| |];
      try (rewrite searchMovies_run_other by discriminate; cbn; auto).
    rewrite searchMovies_run.
    destruct (allWhiteSpace q); [cbn; auto|].
    destruct (keyIsPlaceholder API_KEY); [cbn; auto|].
    split; [|discriminate].
    outcome_cases (net (searchUrl API_KEY (VStr q) page)); cbn; auto. }
  destruct Hsearch as [Hs1 Hs0].
  destruct (keyIsPlaceholder API_KEY).
  - cbn. repeat split; auto.
  - split; [|discriminate]. repeat split; [|exact Hs1|].
    + outcome_cases (net (popularUrl API_KEY page)); cbn; auto.
    + destruct (net (detailsUrl API_KEY movieId)) as [|[|] [|]]; cbn; auto.
Qed.

Lemma client_single_attempt_witness :
  (fetches (fst (fetchPopularMovies (Some "YOUR_TMDB_API_KEY")
                   (fun _ => NetworkFailure) None)) = 0 /\
   fetches (fst (searchMovies (Some "YOUR_TMDB_API_KEY")
                   (fun _ => NetworkFailure) (VStr "dark") None)) = 0 /\
   fetches (fst (fetchMovieDetails (Some "YOUR_TMDB_API_KEY")
                   (fun _ => NetworkFailure) "3")) = 0)%nat.
Proof.
  apply (proj2 (client_single_attempt (Some "YOUR_TMDB_API_KEY")
                  (fun _ => NetworkFailure) None (VStr "dark") "3")).
  reflexivity.
Defined.

(** X2. No remote failure is silent: with a key that is not the
    placeholder, a failed request is followed by exactly one
    [console.error] that names the operation and carries the cause, and
    the fallback value is returned. *)
Theorem client_failure_logged
  (API_KEY : option string) (net : Network)
  (page : option N) (q : string) (movieId : string)
  (Hkey : keyIsPlaceholder API_KEY = false) :
  (failed (net (popularUrl API_KEY page)) = true ->
   fetchPopularMovies API_KEY net page
   = ([Fetch (popularUrl API_KEY page) (authorization API_KEY);
       ConsoleError "Error fetching popular movies:"
         (causeOf "Failed to fetch popular movies" (net (popularUrl API_KEY page)))],
      Resolved (moviesVal DUMMY_MOVIES))) /\
  (allWhiteSpace q = false ->
   failed (net (searchUrl API_KEY (VStr q) page)) = true ->
   searchMovies API_KEY net (VStr q) page
   = ([Fetch (searchUrl API_KEY (VStr q) page) (authorization API_KEY);
       ConsoleError "Error searching movies:"
         (causeOf "Failed to search movies" (net (searchUrl API_KEY (VStr q) page)))],
      Resolved (moviesVal (matching q)))) /\
  (failed (net (detailsUrl API_KEY movieId)) = true ->
   fetchMovieDetails API_KEY net movieId
   = ([Fetch (detailsUrl API_KEY movieId) (authorization API_KEY);
       ConsoleError "Error fetching movie details:"
         (causeOf "Failed to fetch movie details" (net (detailsUrl API_KEY movieId)))],
      Resolved (dummyDetails movieId))).
Proof.
  split; [|split].
  - intros H. rewrite fetchPopularMovies_run, Hkey.
    outcome_cases (net (popularUrl API_KEY page)); try reflexivity; discriminate H.
  - intros Hq H. rewrite searchMovies_run, Hq, Hkey.
    outcome_cases (net (searchUrl API_KEY (VStr q) page));
      try reflexivity; discriminate H.
  - intros H. rewrite fetchMovieDetails_run, Hkey.
    destruct (net (detailsUrl API_KEY movieId)) as [|[|] [|]];
      try reflexivity; discriminate H.
Qed.

Lemma client_failure_logged_witness :
  fetchMovieDetails (Some "0123456789abcdef") (fun _ => Response false (Json VNull)) "42"
  = ([Fetch "https://api.themoviedb.org/3/movie/42?api_key=0123456789abcdef&language=en-US"
        "Bearer 0123456789abcdef";
      ConsoleError "Error fetching movie details:" (Error "Failed to fetch movie details")],
     Resolved (dummyDetails "42")).
Proof.
  apply (proj2 (proj2 (client_failure_logged (Some "0123456789abcdef")
                         (fun _ => Response false (Json VNull)) None "x" "42"
                         eq_refl))).
  reflexivity.
Defined.

(** X3. A successful response is handed over as it is: the list
    operations return the [results] property of a JSON object, whatever
    it holds and [undefined] when it is missing, the detail operation
    returns the payload itself, and nothing is logged. *)
Theorem client_success_unvalidated
  (API_KEY : option string) (net : Network)
  (page : option N) (q : string) (movieId : string)
  (Hkey : keyIsPlaceholder API_KEY = false) :
  (forall props,
     net (popularUrl API_KEY page) = Response true (Json (VObj props)) ->
     fetchPopularMovies API_KEY net page
     = ([Fetch (popularUrl API_KEY page) (authorization API_KEY)],
        Resolved (lookup "results" props))) /\
  (forall props,
     allWhiteSpace q = false ->
     net (searchUrl API_KEY (VStr q) page) = Response true (Json (VObj props)) ->
     searchMovies API_KEY net (VStr q) page
     = ([Fetch (searchUrl API_KEY (VStr q) page) (authorization API_KEY)],
        Resolved (lookup "results" props))) /\
  (forall data,
     net (detailsUrl API_KEY movieId) = Response true (Json data) ->
     fetchMovieDetails API_KEY net movieId
     = ([Fetch (detailsUrl API_KEY movieId) (authorization API_KEY)],
        Resolved data)).
Proof.
  split; [|split].
  - intros props H. rewrite fetchPopularMovies_run, Hkey, H. reflexivity.
  - intros props Hq H. rewrite searchMovies_run, Hq, Hkey, H. reflexivity.
  - intros data H. rewrite fetchMovieDetails_run, Hkey, H. reflexivity.
Qed.

Lemma client_success_unvalidated_witness :
  fetchPopularMovies (Some "0123456789abcdef")
    (fun _ => Response true (Json (VObj [("status_message", VStr "ok")]))) None
  = ([Fetch "https://api.themoviedb.org/3/movie/popular?api_key=0123456789abcdef&language=en-US&page=1"
        "Bearer 0123456789abcdef"],
     Resolved VUndefined).
Proof.
  apply (proj1 (client_success_unvalidated (Some "0123456789abcdef")
                  (fun _ => Response true (Json (VObj [("status_message", VStr "ok")])))
                  None "x" "1" eq_refl)
           [("status_message", VStr "ok")]).
  reflexivity.
Defined.

(** X4. [fetchMovieDetails] resolves for every key, network and route id:
    it never rejects. *)
Theorem fetchMovieDetails_always_resolves
  (API_KEY : option string) (net : Network) (movieId : string) :
  exists data, snd (fetchMovieDetails API_KEY net movieId) = Resolved data.
Proof.
  rewrite fetchMovieDetails_run.
  destruct (keyIsPlaceholder API_KEY); [eexists; reflexivity|].
  destruct (net (detailsUrl API_KEY movieId)) as [|[|] [|]]; eexists; reflexivity.
Qed.

(** *** The query inside the request *)

Lemma encodeURIComponent_step (c : ascii) (r tail : string) :
  decodeFirst (encodeURIComponent (String c r) ++ tail)
  = Some (c, encodeURIComponent r ++ tail) /\
  allEncoded (encodeURIComponent (String c r)) = allEncoded (encodeURIComponent r).
Proof.
  destruct c as [[] [] [] [] [] [] [] []]; split; reflexivity.
Qed.

Lemma allEncoded_chars (s : string) (c : ascii) :
  allEncoded s = true -> In c (list_ascii_of_string s) -> isEncoded c = true.
Proof.
  induction s as [|d s IH]; simpl; [contradiction|].
  intros H. apply andb_true_iff in H as [Hd Hs].
  intros [<- | Hin]; auto.
Qed.

Lemma encodeURIComponent_allEncoded (s : string) :
  allEncoded (encodeURIComponent s) = true.
Proof.
  induction s as [|c s IH]; [reflexivity|].
  now rewrite (proj2 (encodeURIComponent_step c s "")).
Qed.

(** X5. Whatever the user types, the query inside the search URL is made
    of unreserved characters, percent signs and upper-case hexadecimal
    digits only: no [&], [=], [#], [?], [/], [+] or space of the text
    reaches the URL unescaped. *)
Theorem search_query_escaped (q : string) (c : ascii) :
  In c (list_ascii_of_string (queryText (VStr q))) ->
  isEncoded c = true /\
  ~ In c ["&"; "="; "#"; "?"; "/"; "+"; " "]%char.
Proof.
  intros Hin.
  assert (H : isEncoded c = true).
  { apply (allEncoded_chars (encodeURIComponent q)); [|exact Hin].
    apply encodeURIComponent_allEncoded. }
  split; [exact H|].
  intros Hres. simpl in Hres.
  repeat (destruct Hres as [<- | Hres]; [discriminate H|]).
  exact Hres.
Qed.

Lemma search_query_escaped_witness :
  isEncoded "%" = true /\
  ~ In "%"%char ["&"; "="; "#"; "?"; "/"; "+"; " "]%char.
Proof.
  apply (search_query_escaped "a&b=c").
  simpl. right. left. reflexivity.
Defined.

Lemma append_cancel_l (a x y : string) : a ++ x = a ++ y -> x = y.
Proof.
  induction a as [|c a IH]; simpl; [auto|].
  intros H. injection H as H. auto.
Qed.

Lemma length_append (a b : string) :
  String.length (a ++ b) = (String.length a + String.length b)%nat.
Proof. induction a as [|c a IH]; simpl; [reflexivity | now rewrite IH]. Qed.

Lemma append_cancel_r (b x y : string) : x ++ b = y ++ b -> x = y.
Proof.
  revert y. induction x as [|c x IH]; intros [|d y] H; simpl in H.
  - reflexivity.
  - apply (f_equal String.length) in H. simpl in H. rewrite length_append in H. lia.
  - apply (f_equal String.length) in H. simpl in H. rewrite length_append in H. lia.
  - injection H as -> H. f_equal. auto.
Qed.

Lemma encodeURIComponent_injective (s1 s2 : string) :
  encodeURIComponent s1 = encodeURIComponent s2 -> s1 = s2.
Proof.
  revert s2. induction s1 as [|c s1 IH]; intros [|d s2] H.
  - reflexivity.
  - apply (f_equal (fun s => decodeFirst (s ++ ""))) in H.
    rewrite (proj1 (encodeURIComponent_step d s2 "")) in H. discriminate H.
  - apply (f_equal (fun s => decodeFirst (s ++ ""))) in H.
    rewrite (proj1 (encodeURIComponent_step c s1 "")) in H. discriminate H.
  - apply (f_equal (fun s => decodeFirst (s ++ ""))) in H.
    rewrite (proj1 (encodeURIComponent_step c s1 "")),
      (proj1 (encodeURIComponent_step d s2 "")) in H.
    injection H as -> H. f_equal. apply IH.
    now apply append_cancel_r in H.
Qed.

(** X6. The search URL determines the query: two texts that lead to the
    same request, for the same key and page, are the same text. *)
Theorem searchUrl_injective
  (API_KEY : option string) (page : option N) (q1 q2 : string) :
  searchUrl API_KEY (VStr q1) page = searchUrl API_KEY (VStr q2) page -> q1 = q2.
Proof.
  unfold searchUrl. intros H.
  repeat apply append_cancel_l in H.
  apply append_cancel_r in H.
  now apply encodeURIComponent_injective.
Qed.

Lemma searchUrl_injective_witness : "a b" = "a b".
Proof.
  apply (searchUrl_injective (Some "0123456789abcdef") None "a b" "a b").
  reflexivity.
Defined.

(** *** From a card to its detail *)

Lemma of_uint_acc_numeral (u : Decimal.uint) :
  forall p, N.pos (Pos.of_uint_acc u p) = numeral u (N.pos p).
Proof.
  induction u; intros p; cbn [Pos.of_uint_acc numeral];
    [reflexivity | rewrite IHu; f_equal; lia ..].
Qed.

Lemma of_uint_numeral (u : Decimal.uint) : N.of_uint u = numeral u 0.
Proof.
  unfold N.of_uint.
  induction u; cbn [Pos.of_uint numeral];
    [reflexivity | exact IHu | apply of_uint_acc_numeral ..].
Qed.

(** The value of a digit that is written out. *)
Ltac digit_value :=
  match goal with
  | |- context [digitValue 10 ?c] =>
      let v := eval vm_compute in (digitValue 10 c) in
      change (digitValue 10 c) with v
  end.

Lemma readDigits_numeral (u : Decimal.uint) (rest : string) :
  endsNumeral rest ->
  forall acc,
    readDigits 10 (NilEmpty.string_of_uint u ++ rest) (Some acc)
    = Some (numeral u acc).
Proof.
  intros Hrest.
  induction u; intros acc; cbn [NilEmpty.string_of_uint append numeral];
    [| cbn [readDigits]; digit_value; cbv iota beta;
       rewrite IHu; do 2 f_equal; lia ..].
  destruct rest as [|h r]; [reflexivity|].
  cbn [readDigits]. destruct Hrest as [-> _]. reflexivity.
Qed.

Lemma readDigits_numeral_start (u : Decimal.uint) (rest : string) :
  u <> Decimal.Nil -> endsNumeral rest ->
  readDigits 10 (NilEmpty.string_of_uint u ++ rest) None = Some (numeral u 0).
Proof.
  intros Hu Hrest.
  destruct u; [contradiction | ..];
    cbn [NilEmpty.string_of_uint append numeral readDigits];
    digit_value; cbv iota beta; apply (readDigits_numeral _ _ Hrest).
Qed.

Lemma parseInt_numeral (u : Decimal.uint) (rest : string) :
  u <> Decimal.Nil -> endsNumeral rest ->
  parseInt (NilEmpty.string_of_uint u ++ rest) = Some (Z.of_N (numeral u 0)).
Proof.
  intros Hu Hrest.
  pose proof (readDigits_numeral_start u rest Hu Hrest) as Hread.
  destruct u as [|u|u|u|u|u|u|u|u|u|u]; [contradiction | ..];
    try (unfold parseInt; cbn [NilEmpty.string_of_uint append] in *;
         cbn -[readDigits numeral]; rewrite Hread; reflexivity).
  unfold parseInt. cbn [NilEmpty.string_of_uint append] in *.
  destruct u as [|u|u|u|u|u|u|u|u|u|u];
    try (cbn [NilEmpty.string_of_uint append] in *;
         cbn -[readDigits numeral]; rewrite Hread; reflexivity).
  cbn [NilEmpty.string_of_uint append] in *.
  destruct rest as [|h r]; [cbn -[readDigits numeral]; rewrite Hread; reflexivity|].
  destruct Hrest as [Hd [Hx HX]].
  destruct h as [[] [] [] [] [] [] [] []];
    first [ exfalso; apply Hx; reflexivity
          | exfalso; apply HX; reflexivity
          | cbn -[readDigits numeral]; rewrite Hread; reflexivity ].
Qed.

Lemma parseInt_decimal (n : N) (rest : string) :
  endsNumeral rest -> parseInt (decimal n ++ rest) = Some (Z.of_N n).
Proof.
  intros Hrest. unfold decimal.
  assert (Hnil : N.to_uint n <> Decimal.Nil).
  { destruct n; [discriminate | apply DecimalPos.Unsigned.to_uint_nonnil]. }
  replace (NilZero.string_of_uint (N.to_uint n))
    with (NilEmpty.string_of_uint (N.to_uint n))
    by (destruct (N.to_uint n); [contradiction | reflexivity ..]).
  rewrite (parseInt_numeral _ _ Hnil Hrest), <- of_uint_numeral.
  now rewrite DecimalN.Unsigned.of_to.
Qed.

Lemma numberTemplate_safe (numberText : Q -> string) (n : N) :
  (n < 2 ^ 53)%N ->
  ListView.numberTemplate numberText (Fin (inject_Z (Z.of_N n))) = decimal n.
Proof.
  intros Hn. unfold ListView.numberTemplate. cbn [Qnum Qden inject_Z].
  rewrite Z.mod_1_r, Z.div_1_r, Zabs2N.id.
  assert (Hz : (Z.abs (Z.of_N n) <? 2 ^ 53)%Z = true).
  { apply Z.ltb_lt. rewrite Z.abs_eq by lia.
    change (2 ^ 53)%Z with (Z.of_N (2 ^ 53)). lia. }
  rewrite Hz. cbn [Z.eqb andb].
  destruct (Z.ltb_spec (Z.of_N n) 0); [lia | reflexivity].
Qed.

(** X7. The list view and the detail view agree on ids: a card click on
    an integer id below 2^53 navigates to "/movie/" followed by the
    decimal digits of the id, and the lookup of the detail view, reading
    that text with [parseInt], holds exactly of the records with the
    clicked id; characters after the numeral change nothing when the
    first of them is neither a digit nor [x]. *)
Theorem click_selects_id
  (numberText : Q -> string) (n : N) (junk : string) (m : Movie)
  (Hid : (n < 2 ^ 53)%N)
  (Hjunk : endsNumeral junk) :
  exists segment,
    ListView.handleMovieClick numberText (Fin (inject_Z (Z.of_N n)))
    = "/movie/" ++ segment /\
    idIs segment m = (id m =? Z.of_N n)%Z /\
    idIs (segment ++ junk) m = (id m =? Z.of_N n)%Z.
Proof.
  exists (decimal n). split.
  - unfold ListView.handleMovieClick.
    now rewrite (numberTemplate_safe numberText n Hid).
  - unfold idIs. rewrite (parseInt_decimal n junk Hjunk).
    pose proof (parseInt_decimal n "" I) as H.
    replace (decimal n ++ "") with (decimal n) in H
      by (clear; induction (decimal n) as [|c s IH]; simpl; congruence).
    rewrite H. split; reflexivity.
Qed.

Lemma click_selects_id_witness :
  exists segment,
    ListView.handleMovieClick (fun _ => "") (Fin (inject_Z (Z.of_N 603)))
    = "/movie/" ++ segment /\
    idIs segment (nth 5 DUMMY_MOVIES (Build_Movie 0 "" "" "" "" NaN ""))
    = (id (nth 5 DUMMY_MOVIES (Build_Movie 0 "" "" "" "" NaN "")) =? Z.of_N 603)%Z /\
    idIs (segment ++ "-the-matrix") (nth 5 DUMMY_MOVIES (Build_Movie 0 "" "" "" "" NaN ""))
    = (id (nth 5 DUMMY_MOVIES (Build_Movie 0 "" "" "" "" NaN "")) =? Z.of_N 603)%Z.
Proof.
  apply (click_selects_id (fun _ => "") 603 "-the-matrix").
  - reflexivity.
  - cbn. repeat split; discriminate.
Defined.

(** X8. A click on the card of a fallback movie leads, in fallback mode,
    to the detail of that same movie: the path carries its id and the
    detail view, once its request has settled, shows its record. *)
Theorem click_then_detail
  (numberText : Q -> string)
  (API_KEY : option string) (net : Network) (m : Movie)
  (Hin : In m DUMMY_MOVIES) :
  exists segment,
    ListView.handleMovieClick numberText (Fin (inject_Z (id m)))
    = "/movie/" ++ segment /\
    (fallbackMode API_KEY net (detailsUrl API_KEY segment) ->
     Detail.panel (Detail.visit API_KEY net segment) = Detail.Details (movieVal m)).
Proof.
  exists (decimal (Z.to_N (id m))).
  simpl in Hin.
  assert (Hpath : ListView.handleMovieClick numberText (Fin (inject_Z (id m)))
                  = "/movie/" ++ decimal (Z.to_N (id m)) /\
                  dummyDetails (decimal (Z.to_N (id m))) = movieVal m).
  { repeat (destruct Hin as [<- | Hin]; [split; reflexivity|]). contradiction. }
  destruct Hpath as [Hpath Hdetails]. split; [exact Hpath|].
  intros Hfb. unfold Detail.visit.
  rewrite (fetchMovieDetails_fallback_value _ _ _ Hfb), Hdetails.
  reflexivity.
Qed.

Lemma click_then_detail_witness :
  exists segment,
    ListView.handleMovieClick (fun _ => "") (Fin (inject_Z 4)) = "/movie/" ++ segment /\
    (fallbackMode None (fun _ => Response false Malformed) (detailsUrl None segment) ->
     exists r,
       Detail.panel (Detail.visit None (fun _ => Response false Malformed) segment)
       = Detail.Details (movieVal r) /\ title r = "Pulp Fiction").
Proof.
  destruct (nth_error DUMMY_MOVIES 3) as [m|] eqn:E; [|discriminate E].
  destruct (click_then_detail (fun _ => "") None (fun _ => Response false Malformed) m
              (nth_error_In _ _ E)) as [segment [Hpath Hpanel]].
  injection E as <-. exists segment. split; [exact Hpath|].
  intros Hfb. eexists. split; [exact (Hpanel Hfb) | reflexivity].
Defined.

(** ** The detail view *)

(** X9. A request that fails, for instance with the status 404 of an
    unknown id, never leads to the "Movie not found" panel: in fallback
    mode the detail view shows a record of the fallback dataset, the one
    with the requested id or else the first one. *)
Theorem detail_failure_shows_fallback
  (API_KEY : option string) (net : Network) (movieId : string)
  (Hfallback : fallbackMode API_KEY net (detailsUrl API_KEY movieId)) :
  exists r,
    In r DUMMY_MOVIES /\
    Detail.panel (Detail.visit API_KEY net movieId) = Detail.Details (movieVal r) /\
    (parseInt movieId = Some (id r) \/
     (forall m, In m DUMMY_MOVIES -> parseInt movieId <> Some (id m)) /\ id r = 1%Z).
Proof.
  destruct (dummyDetails_spec movieId) as [r [Hval [Hin Hid]]].
  exists r. split; [exact Hin|]. split.
  - unfold Detail.visit.
    rewrite (fetchMovieDetails_fallback_value _ _ _ Hfallback), Hval. reflexivity.
  - destruct Hid as [Hid | [Hno [_ [Hone _]]]]; [left | right]; auto.
Qed.

Lemma detail_failure_shows_fallback_witness :
  exists r,
    In r DUMMY_MOVIES /\
    Detail.panel (Detail.visit (Some "0123456789abcdef")
                    (fun _ => Response false (Json VNull)) "999999")
    = Detail.Details (movieVal r) /\
    (parseInt "999999" = Some (id r) \/
     (forall m, In m DUMMY_MOVIES -> parseInt "999999" <> Some (id m)) /\ id r = 1%Z).
Proof.
  apply (detail_failure_shows_fallback (Some "0123456789abcdef")
           (fun _ => Response false (Json VNull)) "999999").
  right. reflexivity.
Defined.




(** ** Further properties of the helpers and of the fallback search *)

Lemma Qfloor_unit (x : Q) : 0 <= x -> x < 1 -> Qfloor x = 0%Z.
Proof.
  intros H0 H1.
  pose proof (Qfloor_le x) as Hlo. pose proof (Qlt_floor x) as Hhi.
  assert (Hz1 : inject_Z (Qfloor x) < inject_Z 1)
    by (apply (Qle_lt_trans _ x); assumption).
  assert (Hz0 : inject_Z 0 < inject_Z (Qfloor x + 1))
    by (apply (Qle_lt_trans _ x); assumption).
  rewrite <- Zlt_Qlt in Hz1, Hz0. lia.
Qed.

(** X11. A rating that is not zero but rounds to zero is shown as "0.0"
    (with its sign), not as "N/A": only an exact zero counts as absent. *)
Theorem formatRating_rounds_to_zero (exponential : Q -> string) (q : Q)
  (Hnonzero : ~ q == 0) (Hsmall : Qabs q < 1 # 20) :
  formatRating exponential (VNum (Fin q))
  = Normal (if Qle_bool 0 q then "0.0" else "-0.0").
Proof.
  assert (Hnum : (Qnum q =? 0)%Z = false).
  { apply Z.eqb_neq. intros E. apply Hnonzero. unfold Qeq. simpl. lia. }
  assert (Hle : Qle_bool (10 ^ 21) (Qabs q) = false).
  { destruct (Qle_bool (10 ^ 21) (Qabs q)) eqn:E; [|reflexivity].
    apply Qle_bool_iff in E. exfalso.
    apply (Qlt_not_le _ _ Hsmall). apply (Qle_trans _ (10 ^ 21)); [|exact E].
    unfold Qle. simpl. lia. }
  assert (Hsign : (Qnum q <? 0)%Z = negb (Qle_bool 0 q)).
  { unfold Qle_bool. simpl. rewrite Z.mul_1_r.
    destruct (Z.ltb_spec (Qnum q) 0), (Z.leb_spec 0 (Qnum q)); simpl; lia. }
  assert (Hn : nearestTenths (Qabs q) = 0%N).
  { unfold nearestTenths. pose proof (Qabs_nonneg q) as Hpos.
    rewrite Qfloor_unit; [reflexivity | lra | lra]. }
  unfold formatRating. cbn [toBoolean]. rewrite Hnum. cbn [negb toFixed1].
  rewrite Hle, Hsign, Hn. destruct (Qle_bool 0 q); reflexivity.
Qed.

Lemma formatRating_rounds_to_zero_witness :
  formatRating (fun _ => "") (VNum (Fin (3 # 100))) = Normal "0.0".
Proof.
  apply (formatRating_rounds_to_zero (fun _ => "") (3 # 100)).
  - unfold Qeq. simpl. lia.
  - unfold Qlt. simpl. lia.
Defined.

Lemma sameLetter_isWhiteSpace (c d : ascii) :
  sameLetter c d -> isWhiteSpace c = isWhiteSpace d.
Proof.
  assert (H : forall a b, lowerOf a b ->
                isWhiteSpace a = false /\ isWhiteSpace b = false).
  { intros a b [Hu Hb]. unfold isWhiteSpace. rewrite Hb.
    unfold isUpper in Hu. set (n := code a) in *. clearbody n.
    repeat match goal with
      | |- context [(?x <=? ?y)%N] => destruct (N.leb_spec x y)
      | |- context [(?x =? ?y)%N] => destruct (N.eqb_spec x y)
      | H : context [(?x <=? ?y)%N] |- _ => destruct (N.leb_spec x y)
      | H : context [(?x =? ?y)%N] |- _ => destruct (N.eqb_spec x y)
      end; simpl in *; try discriminate; try lia; auto. }
  intros [-> | [Hl | Hl]]; [reflexivity | |];
    destruct (H _ _ Hl) as [H1 H2]; congruence.
Qed.

Lemma sameIgnoringCase_allWhiteSpace (a b : string) :
  sameIgnoringCase a b -> allWhiteSpace a = allWhiteSpace b.
Proof.
  induction 1 as [|c d r r' Hl _ IH]; [reflexivity|].
  cbn [allWhiteSpace]. now rewrite (sameLetter_isWhiteSpace c d Hl), IH.
Qed.

Lemma searchMovies_fallback_any
  (API_KEY : option string) (net : Network) (q : string) (page : option N) :
  fallbackMode API_KEY net (searchUrl API_KEY (VStr q) page) ->
  snd (searchMovies API_KEY net (VStr q) page)
  = Resolved (if allWhiteSpace q then VArr [] else moviesVal (matching q)).
Proof.
  intros Hfb. destruct (allWhiteSpace q) eqn:Hq.
  - now rewrite searchMovies_run, Hq.
  - now apply searchMovies_fallback_value.
Qed.

(** X12. In fallback mode the search does not depend on the case of the
    query: two queries that differ only by the case of their letters
    return the same records. *)
Theorem search_ignores_case
  (API_KEY : option string) (net : Network) (q q' : string) (page : option N)
  (Hsame : sameIgnoringCase q q')
  (Hfallback : fallbackMode API_KEY net (searchUrl API_KEY (VStr q) page))
  (Hfallback' : fallbackMode API_KEY net (searchUrl API_KEY (VStr q') page)) :
  snd (searchMovies API_KEY net (VStr q) page)
  = snd (searchMovies API_KEY net (VStr q') page).
Proof.
  rewrite !searchMovies_fallback_any by assumption.
  rewrite (sameIgnoringCase_allWhiteSpace q q' Hsame).
  unfold matching.
  now rewrite (proj2 (toLowerCase_sameIgnoringCase q q') Hsame).
Qed.

Lemma search_ignores_case_witness :
  snd (searchMovies (Some "YOUR_TMDB_API_KEY") (fun _ => NetworkFailure)
         (VStr "GodFather") None)
  = snd (searchMovies (Some "YOUR_TMDB_API_KEY") (fun _ => NetworkFailure)
           (VStr "godfaTHER") None).
Proof.
  apply search_ignores_case.
  - apply toLowerCase_sameIgnoringCase. reflexivity.
  - left. reflexivity.
  - left. reflexivity.
Defined.

Lemma allWhiteSpace_app (a b : string) :
  allWhiteSpace (a ++ b) = allWhiteSpace a && allWhiteSpace b.
Proof.
  induction a as [|c a IH]; simpl; [reflexivity|].
  now rewrite IH, andb_assoc.
Qed.

Lemma append_assoc (a b c : string) : (a ++ b) ++ c = a ++ b ++ c.
Proof. induction a as [|x a IH]; simpl; [reflexivity | now rewrite IH]. Qed.

Lemma includes_narrower (hay q before q' after : string) :
  q = before ++ q' ++ after ->
  includes (toLowerCase hay) (toLowerCase q) = true ->
  includes (toLowerCase hay) (toLowerCase q') = true.
Proof.
  intros -> H. apply includes_app in H as [x [y H]].
  apply includes_app.
  exists (x ++ toLowerCase before), (toLowerCase after ++ y).
  rewrite H, !toLowerCase_app, !append_assoc. reflexivity.
Qed.

Lemma filter_subsequence_weaker {A : Type} (p p' : A -> bool) (xs : list A) :
  (forall x, p x = true -> p' x = true) ->
  subsequence (filter p xs) (filter p' xs).
Proof.
  intros H. induction xs as [|x xs IH]; simpl; [constructor|].
  destruct (p x) eqn:E.
  - rewrite (H x E). now constructor.
  - destruct (p' x); [now constructor | exact IH].
Qed.

(** X13. In fallback mode, typing more never adds results: when a query
    that is not whitespace-only occurs inside a longer one, the records
    found for the longer query are among those found for the shorter
    one, in the same order. *)
Theorem search_narrows
  (API_KEY : option string) (net : Network)
  (q before q' after : string) (page : option N)
  (Hinside : q = before ++ q' ++ after)
  (Hq' : allWhiteSpace q' = false)
  (Hfallback : fallbackMode API_KEY net (searchUrl API_KEY (VStr q) page))
  (Hfallback' : fallbackMode API_KEY net (searchUrl API_KEY (VStr q') page)) :
  exists found found',
    snd (searchMovies API_KEY net (VStr q) page) = Resolved (moviesVal found) /\
    snd (searchMovies API_KEY net (VStr q') page) = Resolved (moviesVal found') /\
    subsequence found found'.
Proof.
  assert (Hq : allWhiteSpace q = false).
  { rewrite Hinside, !allWhiteSpace_app, Hq'.
    now rewrite andb_false_r. }
  exists (matching q), (matching q').
  rewrite !searchMovies_fallback_any, Hq, Hq' by assumption.
  split; [reflexivity|]. split; [reflexivity|].
  apply filter_subsequence_weaker. intros m.
  apply (includes_narrower _ q before q' after Hinside).
Qed.

Lemma search_narrows_witness :
  exists found found',
    snd (searchMovies (Some "YOUR_TMDB_API_KEY") (fun _ => NetworkFailure)
           (VStr "the dark") None) = Resolved (moviesVal found) /\
    snd (searchMovies (Some "YOUR_TMDB_API_KEY") (fun _ => NetworkFailure)
           (VStr "the") None) = Resolved (moviesVal found') /\
    subsequence found found'.
Proof.
  apply (search_narrows (Some "YOUR_TMDB_API_KEY") (fun _ => NetworkFailure)
           "the dark" "" "the" " dark" None).
  - reflexivity.
  - reflexivity.
  - left. reflexivity.
  - left. reflexivity.
Defined.

(** ** Further properties of the list view *)

Lemma fireTimers_cases (now : Z) (s : State) :
  timersOwned s ->
  fireTimers now s = s \/
  exists tm,
    timers s = [tm] /\ isDue now tm = true /\
    fireTimers now s
    = handleSearch (deadline tm) (captured tm) (clearTimeout (timerId tm) s).
Proof.
  intros [Hnil | [tm [Htm _]]]; unfold fireTimers.
  - left. now rewrite Hnil.
  - rewrite Htm. cbn [filter]. destruct (isDue now tm) eqn:E.
    + right. exists tm. auto.
    + left. reflexivity.
Qed.

Lemma fireTimers_timers (now : Z) (s : State) :
  timersOwned s ->
  timers (fireTimers now s) = timers s \/ timers (fireTimers now s) = [].
Proof.
  intros H. destruct (fireTimers_cases now s H) as [-> | [tm [Htm [_ ->]]]].
  - now left.
  - right. cbn. rewrite Htm. cbn. now rewrite Nat.eqb_refl.
Qed.

Lemma fireTimers_searchQuery (now : Z) (s : State) :
  timersOwned s -> searchQuery (fireTimers now s) = searchQuery s.
Proof.
  intros H. destruct (fireTimers_cases now s H) as [-> | [tm [_ [_ ->]]]];
    reflexivity.
Qed.

(** The pending timeout, if any, is for the text of the box. *)
Lemma timer_current_step (s : State) (ev : Z * Input) :
  timersOwned s ->
  (forall tm, In tm (timers s) ->
     captured tm = searchQuery s /\ trim (captured tm) <> "") ->
  forall tm, In tm (timers (step s ev)) ->
    captured tm = searchQuery (step s ev) /\ trim (captured tm) <> "".
Proof.
  intros Hown Hcur. unfold step.
  pose proof (timersOwned_fireTimers (fst ev) s Hown) as Hown'.
  assert (Hcur' : forall tm, In tm (timers (fireTimers (fst ev) s)) ->
            captured tm = searchQuery (fireTimers (fst ev) s)
            /\ trim (captured tm) <> "").
  { rewrite fireTimers_searchQuery by exact Hown.
    destruct (fireTimers_timers (fst ev) s Hown) as [-> | ->];
      [exact Hcur | intros tm []]. }
  set (s1 := fireTimers (fst ev) s) in *. clearbody s1.
  destruct (snd ev) as [value| |[data|e]|[data|e]|]; cbn [handle]; try exact Hcur'.
  unfold handleSearchChange.
  destruct (String.eqb value (searchQuery s1)); [exact Hcur'|].
  pose proof (runCleanup_clears value s1 Hown') as Hclear.
  destruct (runCleanup_keeps value s1) as [Hq _].
  unfold searchEffect. rewrite Hq.
  destruct (truthy (trim value)) eqn:Ht.
  - cbn. rewrite Hclear, Hq. intros tm [<- | []]. cbn.
    split; [reflexivity|]. intros E.
    assert (E' : trim value = "") by exact E.
    rewrite E' in Ht. discriminate Ht.
  - destruct (isSearching (noCleanup (runCleanup (setSearchQuery value s1))));
      cbn; rewrite Hclear; intros tm [].
Qed.

(** X14. In every reachable state at most one timeout is pending, and it
    is for the text that is in the box now, whose trimmed form is not
    empty: the debounce never searches a text the user has since
    changed. *)
Theorem pending_timer_is_current (s : State) (Hreach : reachable s) :
  (List.length (timers s) <= 1)%nat /\
  forall tm, In tm (timers s) ->
    captured tm = searchQuery s /\ trim (captured tm) <> "".
Proof.
  split.
  - destruct (timersOwned_reachable s Hreach) as [-> | [tm [-> _]]]; cbn; lia.
  - destruct Hreach as [t0 [evs ->]].
    assert (H : forall evs s0,
              timersOwned s0 ->
              (forall tm, In tm (timers s0) ->
                 captured tm = searchQuery s0 /\ trim (captured tm) <> "") ->
              forall tm, In tm (timers (run evs s0)) ->
                captured tm = searchQuery (run evs s0) /\ trim (captured tm) <> "").
    { clear. induction evs as [|ev evs IH]; intros s0 Hown Hcur; [exact Hcur|].
      cbn [run fold_left]. apply IH.
      - now apply timersOwned_step.
      - now apply timer_current_step. }
    apply H; [apply timersOwned_mount | intros tm []].
Qed.

Lemma pending_timer_is_current_witness :
  let s := run [(0, Change "g"); (200, Change "go"); (300, Submit)]%Z (mount 0) in
  (List.length (timers s) <= 1)%nat /\
  forall tm, In tm (timers s) ->
    captured tm = searchQuery s /\ trim (captured tm) <> "".
Proof.
  apply (pending_timer_is_current
           (run [(0, Change "g"); (200, Change "go"); (300, Submit)]%Z (mount 0))).
  exists 0%Z, [(0, Change "g"); (200, Change "go"); (300, Submit)]%Z. reflexivity.
Defined.

Lemma run_app (evs evs' : list (Z * Input)) (s : State) :
  run (evs ++ evs') s = run evs' (run evs s).
Proof. unfold run. apply fold_left_app. Qed.

Lemma step_change_after_fire (s : State) (t : Z) (v : string) (t' : Z) (v' : string) :
  armed t v s -> (t + 500 <= t')%Z -> v' <> v -> trim v' <> "" ->
  armed t' v' (step s (t', Change v')) /\
  calls (step s (t', Change v')) = (calls s ++ [SearchMovies (t + 500) v])%list.
Proof.
  intros [Hq [i [Htm Hc]]] Ht Hv Hne.
  unfold step. cbn [fst snd handle].
  assert (Hfire : fireTimers t' s
                  = handleSearch (t + 500) v (clearTimeout i s)).
  { unfold fireTimers. rewrite Htm. cbn [filter]. unfold isDue. cbn [deadline].
    destruct (Z.leb_spec (t + 500) t'); [reflexivity | lia]. }
  rewrite Hfire.
  set (s1 := handleSearch (t + 500) v (clearTimeout i s)).
  assert (Hown : timersOwned s1).
  { left. cbn. rewrite Htm. cbn. now rewrite Nat.eqb_refl. }
  assert (Hq1 : searchQuery s1 = v) by exact Hq.
  pose proof (runCleanup_clears v' s1 Hown) as Hclear.
  destruct (runCleanup_keeps v' s1) as [Hq' [_ Hcalls]].
  unfold handleSearchChange. rewrite Hq1.
  apply String.eqb_neq in Hv. rewrite Hv.
  unfold searchEffect. rewrite Hq', (truthy_nonempty _ Hne).
  unfold armed. cbn. rewrite Hclear, Hq', Hcalls.
  split; [split; [reflexivity | eexists; split; reflexivity] | reflexivity].
Qed.

Lemma spaced_run (ks : list (Z * string)) :
  forall (s : State) (t : Z) (v : string) (tn : Z) (vn : string),
    armed t v s ->
    spaced t v (ks ++ [(tn, vn)]) ->
    armed tn vn (run (keystrokes (ks ++ [(tn, vn)])) s) /\
    calls (run (keystrokes (ks ++ [(tn, vn)])) s)
    = (calls s ++ map searchOf ((t, v) :: ks))%list.
Proof.
  induction ks as [|[t1 v1] ks IH]; intros s t v tn vn Harm Hsp.
  - cbn in Hsp. destruct Hsp as [Ht [Hv [Hne _]]].
    apply (step_change_after_fire s t v tn vn); assumption.
  - cbn [app spaced] in Hsp. destruct Hsp as [Ht [Hv [Hne Hsp]]].
    change (run (keystrokes (((t1, v1) :: ks) ++ [(tn, vn)])) s)
      with (run (keystrokes (ks ++ [(tn, vn)])) (step s (t1, Change v1))).
    destruct (step_change_after_fire s t v t1 v1) as [Harm1 Hcalls1]; try assumption.
    destruct (IH _ t1 v1 tn vn Harm1 Hsp) as [Harm' Hcalls'].
    split; [exact Harm'|].
    rewrite Hcalls', Hcalls1, <- app_assoc. reflexivity.
Qed.

(** X15. Typing slowly searches every text: from a reachable state with
    no pending timeout, keystrokes that each change the text to one
    whose trimmed form is not empty and that come 500 ms or more apart
    lead, once 500 ms have passed after the last one, to exactly one
    search per keystroke, each 500 ms after its keystroke and with the
    text of that keystroke, in order. *)
Theorem slow_typing_searches_each
  (s : State) (t1 : Z) (v1 : string) (ks : list (Z * string)) (now : Z)
  (Hreach : reachable s)
  (Hidle : timers s = [])
  (Hfirst : v1 <> searchQuery s /\ trim v1 <> "")
  (Hspaced : spaced t1 v1 ks)
  (Hnow : (fst (last ks (t1, v1)) + 500 <= now)%Z) :
  calls (run (keystrokes ((t1, v1) :: ks) ++ [(now, Wait)])%list s)
  = (calls s ++ map searchOf ((t1, v1) :: ks))%list.
Proof.
  destruct Hfirst as [Hv Hne].
  destruct (step_change_arms s t1 v1) as [Harm Hcalls];
    [apply timersOwned_reachable, Hreach | rewrite Hidle; intros tm [] | exact Hv
     | exact Hne |].
  rewrite run_app.
  change (run (keystrokes ((t1, v1) :: ks)) s)
    with (run (keystrokes ks) (step s (t1, Change v1))).
  change (run [(now, Wait)] ?x) with (step x (now, Wait)).
  destruct (exists_last (l := (t1, v1) :: ks)) as [front [[tn vn] Hlast]];
    [discriminate|].
  destruct front as [|k0 front].
  - destruct ks; [|destruct ks; discriminate Hlast].
    injection Hlast as <- <-. cbn [last fst] in Hnow.
    cbn [keystrokes map run fold_left].
    rewrite (armed_wait t1 v1 _ now Harm).
    destruct (Z.leb_spec (t1 + 500) now); [|lia].
    rewrite Hcalls. reflexivity.
  - cbn [app] in Hlast. injection Hlast as <- Hks.
    assert (Hl : last ks (t1, v1) = (tn, vn)).
    { rewrite Hks. clear. induction front as [|k front IH]; [reflexivity|].
      cbn [app]. destruct (front ++ [(tn, vn)])%list eqn:E; [|exact IH].
      destruct front; discriminate E. }
    rewrite Hl in Hnow. cbn [fst] in Hnow. subst ks.
    destruct (spaced_run front _ t1 v1 tn vn Harm Hspaced) as [Harm' Hcalls'].
    rewrite (armed_wait tn vn _ now Harm').
    destruct (Z.leb_spec (tn + 500) now); [|lia].
    rewrite Hcalls', Hcalls.
    change ((t1, v1) :: front ++ [(tn, vn)])%list
      with (((t1, v1) :: front) ++ [(tn, vn)])%list.
    rewrite map_app, List.app_assoc. reflexivity.
Qed.

Lemma slow_typing_searches_each_witness :
  calls (run (keystrokes [(0, "a"); (600, "ab"); (1500, "abc")]
              ++ [(2000, Wait)])%list%Z (mount 0))
  = (calls (mount 0)
     ++ map searchOf [(0, "a"); (600, "ab"); (1500, "abc")]%Z)%list.
Proof.
  apply (slow_typing_searches_each (mount 0) 0 "a" [(600, "ab"); (1500, "abc")]%Z 2000).
  - exists 0%Z, []. reflexivity.
  - reflexivity.
  - split; discriminate.
  - cbn. repeat split; try lia; discriminate.
  - cbn. lia.
Defined.

Lemma searches_app (a b : list Call) :
  searches (a ++ b) = (searches a + searches b)%nat.
Proof.
  induction a as [|[t q|t] a IH]; cbn [app searches]; [reflexivity | | exact IH].
  now rewrite IH.
Qed.

Lemma searches_step (s : State) (ev : Z * Input) :
  timersOwned s ->
  (searches (calls (step s ev)) + List.length (timers (step s ev))
   <= searches (calls s) + List.length (timers s) + triggers [ev])%nat.
Proof.
  intros Hown. unfold step.
  pose proof (timersOwned_fireTimers (fst ev) s Hown) as Hown1.
  assert (Hfire :
    (searches (calls (fireTimers (fst ev) s))
     + List.length (timers (fireTimers (fst ev) s))
     = searches (calls s) + List.length (timers s))%nat).
  { destruct (fireTimers_cases (fst ev) s Hown) as [-> | [tm [Htm [_ ->]]]];
      [reflexivity|].
    cbn. rewrite Htm, searches_app. cbn. rewrite Nat.eqb_refl. cbn. lia. }
  rewrite <- Hfire.
  set (s1 := fireTimers (fst ev) s) in *. clearbody s1. clear Hfire.
  destruct ev as [t [value| |[data|e]|[data|e]|]]; cbn [fst snd handle triggers];
    try (cbn; lia).
  - unfold handleSearchChange.
    destruct (String.eqb value (searchQuery s1)); [lia|].
    pose proof (runCleanup_clears value s1 Hown1) as Hclear.
    destruct (runCleanup_keeps value s1) as [_ [_ Hcalls]].
    unfold searchEffect.
    destruct (truthy (trim (searchQuery (runCleanup (setSearchQuery value s1))))).
    + cbn. rewrite Hclear, Hcalls. cbn. lia.
    + destruct (isSearching (noCleanup (runCleanup (setSearchQuery value s1))));
        cbn; rewrite Hclear, Hcalls, ?searches_app; cbn; lia.
  - cbn. rewrite searches_app. cbn. lia.
Qed.

Lemma searches_run (evs : list (Z * Input)) :
  forall s, timersOwned s ->
    (searches (calls (run evs s)) + List.length (timers (run evs s))
     <= searches (calls s) + List.length (timers s) + triggers evs)%nat.
Proof.
  induction evs as [|ev evs IH]; intros s Hown; [cbn; lia|].
  cbn [run fold_left].
  pose proof (IH (step s ev) (timersOwned_step s ev Hown)) as H1.
  pose proof (searches_step s ev Hown) as H2.
  unfold run in H1.
  assert (Ht : triggers (ev :: evs) = (triggers [ev] + triggers evs)%nat).
  { destruct ev as [t [value| |r|r|]]; reflexivity. }
  lia.
Qed.

(** X16. Whatever the timing, the list view never issues more searches
    than the user has given it reasons to: after any sequence of inputs
    from its first render, the searches issued and the timeout still
    pending together number at most the text changes and submissions. *)
Theorem searches_bounded_by_triggers (t0 : Z) (evs : list (Z * Input)) :
  (searches (calls (run evs (mount t0)))
   + List.length (timers (run evs (mount t0)))
   <= triggers evs)%nat.
Proof.
  pose proof (searches_run evs (mount t0) (timersOwned_mount t0)) as H.
  exact H.
Qed.

(** *** The list view on top of the client *)

Lemma fireTimers_keeps (now : Z) (s : State) :
  movies (fireTimers now s) = movies s /\
  (error s = None -> error (fireTimers now s) = None).
Proof.
  unfold fireTimers. generalize (filter (isDue now) (timers s)). intros l.
  revert s. induction l as [|tm l IH]; intros s; [auto|].
  cbn [fold_left].
  destruct (IH (handleSearch (deadline tm) (captured tm)
                  (clearTimeout (timerId tm) s))) as [Hm He].
  split; [rewrite Hm; reflexivity | intros _; apply He; reflexivity].
Qed.

Lemma handleSearchChange_keeps (now : Z) (value : string) (s : State) :
  movies (handleSearchChange now value s) = movies s /\
  (error s = None -> error (handleSearchChange now value s) = None).
Proof.
  unfold handleSearchChange, searchEffect, runCleanup.
  destruct (String.eqb value (searchQuery s)); [auto|].
  destruct (cleanup (setSearchQuery value s));
    match goal with
    | |- context [truthy ?x] => destruct (truthy x)
    end; cbn;
    try match goal with
      | |- context [if isSearching s then _ else _] => destruct (isSearching s)
      end; cbn; auto.
Qed.

Lemma settle_resolves (API_KEY : option string) (net : Network) (c : Call) :
  exists data, ListView.settle API_KEY net c = Resolved data.
Proof.
  destruct c as [t q | t]; cbn [ListView.settle].
  - apply searchMovies_string_resolves.
  - rewrite fetchPopularMovies_cases.
    destruct (keyIsPlaceholder API_KEY); [eexists; reflexivity|].
    outcome_cases (net (popularUrl API_KEY None)); eexists; reflexivity.
Qed.

Lemma error_step (API_KEY : option string) (net : Network) (s : State) (ev : Z * Input) :
  ListView.fromClient API_KEY net (snd ev) ->
  error s = None -> error (step s ev) = None.
Proof.
  intros Hev He. unfold step.
  pose proof (proj2 (fireTimers_keeps (fst ev) s) He) as He1.
  set (s1 := fireTimers (fst ev) s) in *. clearbody s1.
  destruct ev as [t i]. cbn [fst snd] in *.
  inversion Hev as [value | | | t' | t' q]; subst i; cbn [handle].
  - now apply handleSearchChange_keeps.
  - reflexivity.
  - exact He1.
  - destruct (settle_resolves API_KEY net (FetchPopularMovies t')) as [data ->].
    exact He1.
  - destruct (settle_resolves API_KEY net (SearchMovies t' q)) as [data ->].
    exact He1.
Qed.

Lemma error_run (API_KEY : option string) (net : Network) (evs : list (Z * Input)) :
  Forall (fun ev => ListView.fromClient API_KEY net (snd ev)) evs ->
  forall s, error s = None -> error (run evs s) = None.
Proof.
  induction 1 as [|ev evs Hev _ IH]; intros s He; [exact He|].
  cbn [run fold_left]. apply IH. now apply (error_step API_KEY net).
Qed.

(** X17. Fed by the catalog client, the list view never reaches its
    error state: whatever the key and the network are, after any
    sequence of text changes, submissions, waits and settlings of its
    own requests, [error] is unset and a render shows no error banner. *)
Theorem list_view_never_errors
  (API_KEY : option string) (net : Network) (t0 : Z) (evs : list (Z * Input))
  (Hevs : Forall (fun ev => ListView.fromClient API_KEY net (snd ev)) evs) :
  error (run evs (mount t0)) = None /\
  forall view, ListView.render (run evs (mount t0)) = Normal view ->
               ListView.banner view = None.
Proof.
  assert (He : error (run evs (mount t0)) = None)
    by (apply (error_run API_KEY net evs Hevs); reflexivity).
  split; [exact He|].
  intros view. unfold ListView.render. rewrite He.
  destruct (ListView.sectionTitle (run evs (mount t0))); [|discriminate].
  destruct (if loading (run evs (mount t0)) then _ else _); [|discriminate].
  intros H. injection H as <-. reflexivity.
Qed.

Lemma list_view_never_errors_witness :
  let net := fun _ : string => Response false Malformed in
  let evs := [(0, PopularSettled (ListView.settle None net (FetchPopularMovies 0)));
              (100, Change "dark");
              (700, SearchSettled (ListView.settle None net (SearchMovies 600 "dark")))]%Z in
  error (run evs (mount 0)) = None.
Proof.
  apply (list_view_never_errors None (fun _ : string => Response false Malformed) 0%Z).
  repeat constructor.
Defined.

Lemma subsequence_nil {A : Type} (xs : list A) : subsequence [] xs.
Proof. induction xs; now constructor. Qed.

Lemma subsequence_refl {A : Type} (xs : list A) : subsequence xs xs.
Proof. induction xs; now constructor. Qed.

Lemma settle_placeholder (API_KEY : option string) (net : Network) (c : Call) :
  keyIsPlaceholder API_KEY = true ->
  exists found,
    ListView.settle API_KEY net c = Resolved (moviesVal found) /\
    subsequence found DUMMY_MOVIES.
Proof.
  intros Hkey. destruct c as [t q | t]; cbn [ListView.settle].
  - rewrite searchMovies_run, Hkey. destruct (allWhiteSpace q).
    + exists []. split; [reflexivity | apply subsequence_nil].
    + exists (matching q). split; [reflexivity | apply filter_subsequence].
  - rewrite fetchPopularMovies_run, Hkey.
    exists DUMMY_MOVIES. split; [reflexivity | apply subsequence_refl].
Qed.

Lemma movies_step (API_KEY : option string) (net : Network) (s : State) (ev : Z * Input) :
  keyIsPlaceholder API_KEY = true ->
  ListView.fromClient API_KEY net (snd ev) ->
  (exists found, movies s = moviesVal found /\ subsequence found DUMMY_MOVIES) ->
  exists found, movies (step s ev) = moviesVal found /\ subsequence found DUMMY_MOVIES.
Proof.
  intros Hkey Hev Hm. unfold step.
  rewrite <- (proj1 (fireTimers_keeps (fst ev) s)) in Hm.
  set (s1 := fireTimers (fst ev) s) in *. clearbody s1.
  destruct ev as [t i]. cbn [fst snd] in *.
  inversion Hev as [value | | | t' | t' q]; subst i; cbn [handle].
  - now rewrite (proj1 (handleSearchChange_keeps t value s1)).
  - exact Hm.
  - exact Hm.
  - destruct (settle_placeholder API_KEY net (FetchPopularMovies t') Hkey)
      as [found [-> Hsub]].
    exists found. split; [reflexivity | exact Hsub].
  - destruct (settle_placeholder API_KEY net (SearchMovies t' q) Hkey)
      as [found [-> Hsub]].
    exists found. split; [reflexivity | exact Hsub].
Qed.

Lemma movies_run (API_KEY : option string) (net : Network) (evs : list (Z * Input)) :
  keyIsPlaceholder API_KEY = true ->
  Forall (fun ev => ListView.fromClient API_KEY net (snd ev)) evs ->
  forall s,
    (exists found, movies s = moviesVal found /\ subsequence found DUMMY_MOVIES) ->
    exists found,
      movies (run evs s) = moviesVal found /\ subsequence found DUMMY_MOVIES.
Proof.
  intros Hkey. induction 1 as [|ev evs Hev _ IH]; intros s Hm; [exact Hm|].
  cbn [run fold_left]. apply IH. now apply (movies_step API_KEY net).
Qed.

Lemma isNumber_length (k : Z) (n : nat) :
  ListView.isNumber k (VNum (Fin (inject_Z (Z.of_nat n)))) = (Z.of_nat n =? k)%Z.
Proof.
  unfold ListView.isNumber, Qeq_bool. cbn [Qnum Qden inject_Z].
  rewrite !Z.mul_1_r. reflexivity.
Qed.

(** X18. With the placeholder key the list view only ever holds records
    of the fallback dataset, in the order of the dataset, and the title
    and the list of every render are computed without a throw: no error
    banner, and either the spinner, the empty state when there is no
    record, or one card per record. *)
Theorem placeholder_list_view
  (API_KEY : option string) (net : Network) (t0 : Z) (evs : list (Z * Input))
  (Hkey : keyIsPlaceholder API_KEY = true)
  (Hevs : Forall (fun ev => ListView.fromClient API_KEY net (snd ev)) evs) :
  let s := run evs (mount t0) in
  exists found view,
    movies s = moviesVal found /\
    subsequence found DUMMY_MOVIES /\
    ListView.render s = Normal view /\
    ListView.banner view = None /\
    ListView.listing view
    = if loading s then ListView.LoadingSpinner
      else match found with
           | [] => ListView.NoMoviesFound
           | _ => ListView.Grid (map movieVal found)
           end.
Proof.
  cbv zeta.
  destruct (movies_run API_KEY net evs Hkey Hevs (mount t0)) as [found [Hm Hsub]].
  { exists []. split; [reflexivity | apply subsequence_nil]. }
  pose proof (error_run API_KEY net evs Hevs (mount t0) eq_refl) as He.
  exists found. unfold ListView.render, ListView.sectionTitle, ListView.MovieList.
  rewrite Hm, He. unfold moviesVal. cbn [ListView.lengthOf toBoolean negb].
  rewrite !isNumber_length.
  set (title := if isSearching (run evs (mount t0)) then _ else _).
  assert (Htitle : exists h, title = Normal h)
    by (subst title; destruct (isSearching _); eexists; reflexivity).
  destruct Htitle as [h ->].
  destruct (loading (run evs (mount t0))).
  - eexists. repeat split; [exact Hsub|reflexivity..].
  - destruct found as [|m found].
    + eexists. repeat split; [exact Hsub|reflexivity..].
    + destruct (Z.eqb_spec (Z.of_nat (List.length (map movieVal (m :: found)))) 0)
        as [E|_]; [cbn [map List.length] in E; lia|].
      eexists. repeat split; [exact Hsub|reflexivity..].
Qed.

Lemma placeholder_list_view_witness :
  let key := Some "YOUR_TMDB_API_KEY" in
  let net := fun _ : string => NetworkFailure in
  let evs := [(0, Change "the");
              (500, SearchSettled (ListView.settle key net (SearchMovies 500 "the")))]%Z in
  let s := run evs (mount 0) in
  exists found view,
    movies s = moviesVal found /\
    subsequence found DUMMY_MOVIES /\
    ListView.render s = Normal view /\
    ListView.banner view = None /\
    ListView.listing view
    = if loading s then ListView.LoadingSpinner
      else match found with
           | [] => ListView.NoMoviesFound
           | _ => ListView.Grid (map movieVal found)
           end.
Proof.
  apply (placeholder_list_view (Some "YOUR_TMDB_API_KEY")
           (fun _ : string => NetworkFailure) 0%Z).
  - reflexivity.
  - repeat constructor.
Defined.

(** X19. A search answered with success by an object that has no
    [results] (or a [null] one) breaks the list view: the client hands
    the missing value over, the view stores it in search mode, and the
    title, which reads [movies.length], throws a TypeError at the next
    render. *)
Theorem search_without_results_breaks_render
  (API_KEY : option string) (net : Network) (q : string)
  (props : list (string * JsVal)) (t : Z) (s : State)
  (Hkey : keyIsPlaceholder API_KEY = false)
  (Hq : allWhiteSpace q = false)
  (Hnet : net (searchUrl API_KEY (VStr q) None) = Response true (Json (VObj props)))
  (Hresults : lookup "results" props = VUndefined \/ lookup "results" props = VNull) :
  ListView.render
    (searchSettled (ListView.settle API_KEY net (SearchMovies t q)) (handleSearch t q s))
  = Throw TypeError.
Proof.
  cbn [ListView.settle]. rewrite searchMovies_run, Hq, Hkey, Hnet.
  cbn [getProp snd searchSettled].
  unfold ListView.render, ListView.sectionTitle. cbn.
  destruct Hresults as [-> | ->]; reflexivity.
Qed.

Lemma search_without_results_breaks_render_witness :
  ListView.render
    (searchSettled
       (ListView.settle (Some "0123456789abcdef")
          (fun _ => Response true (Json (VObj [("total_results", VNum (Fin 0))])))
          (SearchMovies 500 "dune"))
       (handleSearch 500 "dune" (run [(0, Change "dune")]%Z (mount 0))))
  = Throw TypeError.
Proof.
  apply (search_without_results_breaks_render (Some "0123456789abcdef")
           (fun _ => Response true (Json (VObj [("total_results", VNum (Fin 0))])))
           "dune" [("total_results", VNum (Fin 0))]).
  - reflexivity.
  - reflexivity.
  - reflexivity.
  - left. reflexivity.
Defined.

(** X20. The same answer to the popular request is harmless outside
    search mode: the view stores the missing value, and its render shows
    the title "Popular Movies", no banner and the empty state. *)
Theorem popular_without_results_is_empty
  (API_KEY : option string) (net : Network)
  (props : list (string * JsVal)) (t : Z) (s : State)
  (Hkey : keyIsPlaceholder API_KEY = false)
  (Hnet : net (popularUrl API_KEY None) = Response true (Json (VObj props)))
  (Hresults : lookup "results" props = VUndefined \/ lookup "results" props = VNull)
  (Hmode : isSearching s = false) :
  ListView.render
    (popularSettled (ListView.settle API_KEY net (FetchPopularMovies t))
       (loadPopularMovies t s))
  = Normal {| ListView.heading := ListView.PopularMovies;
              ListView.banner := None;
              ListView.listing := ListView.NoMoviesFound |}.
Proof.
  cbn [ListView.settle]. rewrite fetchPopularMovies_run, Hkey, Hnet.
  cbn [getProp snd popularSettled].
  unfold ListView.render, ListView.sectionTitle, ListView.MovieList. cbn.
  rewrite Hmode. destruct Hresults as [-> | ->]; reflexivity.
Qed.

Lemma popular_without_results_is_empty_witness :
  ListView.render
    (popularSettled
       (ListView.settle (Some "0123456789abcdef")
          (fun _ => Response true (Json (VObj [("status_message", VStr "ok")])))
          (FetchPopularMovies 0))
       (loadPopularMovies 0 (mount 0)))
  = Normal {| ListView.heading := ListView.PopularMovies;
              ListView.banner := None;
              ListView.listing := ListView.NoMoviesFound |}.
Proof.
  apply (popular_without_results_is_empty (Some "0123456789abcdef")
           (fun _ => Response true (Json (VObj [("status_message", VStr "ok")])))
           [("status_message", VStr "ok")]).
  - reflexivity.
  - reflexivity.
  - left. reflexivity.
  - reflexivity.
Defined.

(** X21. Submitting the form on an empty or whitespace-only box is not
    guarded: the view enters search mode and asks the client, which
    answers with the empty sequence without any request, and the render
    then shows the search title with a count of 0 and the empty state in
    place of the list that was there. *)
Theorem blank_submit_empties_list
  (API_KEY : option string) (net : Network) (t : Z) (s : State)
  (Hblank : allWhiteSpace (searchQuery s) = true) :
  let s1 := handle t Submit s in
  let request := SearchMovies t (searchQuery s) in
  calls s1 = (calls s ++ [request])%list /\
  fetches (fst (searchMovies API_KEY net (VStr (searchQuery s)) None)) = 0%nat /\
  ListView.render (searchSettled (ListView.settle API_KEY net request) s1)
  = Normal {| ListView.heading :=
                ListView.SearchResults (searchQuery s) (VNum (Fin (inject_Z 0))) "movies";
              ListView.banner := None;
              ListView.listing := ListView.NoMoviesFound |}.
Proof.
  cbv zeta. split; [reflexivity|].
  cbn [ListView.settle]. rewrite searchMovies_run, Hblank.
  split; reflexivity.
Qed.

Lemma blank_submit_empties_list_witness :
  ListView.render
    (searchSettled
       (ListView.settle (Some "0123456789abcdef") (fun _ => NetworkFailure)
          (SearchMovies 50 ""))
       (handle 50 Submit (mount 0)))
  = Normal {| ListView.heading :=
                ListView.SearchResults "" (VNum (Fin (inject_Z 0))) "movies";
              ListView.banner := None;
              ListView.listing := ListView.NoMoviesFound |}.
Proof.
  apply (proj2 (proj2 (blank_submit_empties_list (Some "0123456789abcdef")
                         (fun _ => NetworkFailure) 50 (mount 0) eq_refl))).
Defined.
